(** * tash: a shallow embedding of [tash.c]

    The interpreter reads a line from standard input, splits it at
    white space, and either runs one of three builtins or forks and
    executes a program.  The C code talks to its environment all the
    time (stdio, the heap, [chdir], [fork], [execvp], [waitpid]); the
    embedding makes that explicit: the answers of the operating system
    are a record [os], the mutable state of the process is a record
    [world], and every C function is a function from [world] to an
    [outcome].  *)

From Stdlib Require Import ZArith Lia Ascii String List Bool.
From stdpp Require Import base tactics option list.
Import ListNotations.
Local Open Scope Z_scope.

(** ** C data *)

(** A [char *] that points to a NUL-terminated string is the list of the
    characters before the terminator. *)
Definition cstring : Type := list ascii.

Definition cs (s : string) : cstring := list_ascii_of_string s.

Definition NUL : ascii := "000"%char.
Definition BEL : ascii := "007"%char.
Definition TAB : ascii := "009"%char.
Definition LF  : ascii := "010"%char.
Definition CR  : ascii := "013"%char.
Definition SPC : ascii := " "%char.
Definition ESC : ascii := "027"%char.
Definition QUOTE : ascii := "034"%char.

(** What a [char *] into a block of memory denotes: the characters up to
    the first NUL. *)
Fixpoint c_str (cells : list ascii) : cstring :=
  match cells with
  | [] => []
  | c :: rest => if Ascii.eqb c NUL then [] else c :: c_str rest
  end.

Definition INT_MAX : Z := 2147483647.
Definition EXIT_SUCCESS : Z := 0.
Definition EXIT_FAILURE : Z := 1.
Definition EOF : Z := -1.
Definition ENOMEM : Z := 12.

(** The two values of the [int] that every command hands back to the
    loop. *)
Definition Continue : Z := 1.
Definition Terminate : Z := 0.

(** A [char **] argument vector: the address of the array of pointers and
    the strings before its NULL entry. *)
Record argv : Type := Argv { argv_ptr : Z; argv_toks : list cstring }.

(** A 64-bit pointer read where an [int] is expected: the low 32 bits, as
    a signed number. *)
Definition int_of_ptr (p : Z) : Z :=
  let u := p mod 2 ^ 32 in
  if u <? 2 ^ 31 then u else u - 2 ^ 32.

(** The status a parent sees of a process that called [exit (status)]. *)
Definition wait_status_of (status : Z) : Z := Z.land status 255.

(** ** The environment *)

(** What reaches [stderr]: a fixed text ([fprintf]) or [perror] of the
    current [errno]. *)
Inductive diag : Type :=
| Message (text : string)
| Perror (prefix : string) (errno : Z).

(** What an [int status] can hold: what [waitpid (pid, &status,
    WUNTRACED)] stores in it (the child has exited, was killed by a signal,
    was stopped), or, when nothing was ever stored in it, any value at
    all. *)
Inductive wstatus : Type :=
| WExited (code : Z)
| WSignaled (sig : Z)
| WStopped (sig : Z)
| WOther (bits : Z).

Definition WIFEXITED (s : wstatus) : bool :=
  match s with WExited _ => true | _ => false end.
Definition WIFSIGNALED (s : wstatus) : bool :=
  match s with WSignaled _ => true | _ => false end.

(** The result of a system call that can fail with an [errno]. *)
Inductive sysres (A : Type) : Type :=
| Ok (a : A)
| Err (errno : Z).
Arguments Ok {A} a.
Arguments Err {A} errno.

(** The answers of the operating system.  They are fixed for a run; the
    process only chooses which questions it asks. *)
Record os : Type := Os {
  (** the k-th [malloc] or [realloc]: the address of the block, or NULL *)
  os_heap : nat -> option Z;
  (** the indeterminate byte found in cell [i] of memory never written *)
  os_junk : nat -> ascii;
  (** [chdir (path)] in directory [cwd]: the new directory or an error *)
  os_chdir : cstring -> cstring -> sysres cstring;
  (** the k-th [fork]: an error, [0] in the child, the child's pid in the
      parent *)
  os_fork : nat -> sysres Z;
  (** [execvp (file, args)]: [None] when the image is replaced, the errno
      when it is not *)
  os_execvp : cstring -> list cstring -> option Z;
  (** the answers to the calls of [waitpid] for child [pid], call by
      call: the status it stores, or the errno with which it fails; when
      the list ends the next call never comes back, or the calls fail for
      ever *)
  os_wait : Z -> list (sysres wstatus);
  (** what an [int] on the stack holds before anything is stored in it *)
  os_stack : wstatus
}.

(** The state of the process. *)
Record world : Type := World {
  w_stdin  : list ascii;   (** unread input; empty is end-of-input *)
  w_stdout : list string;  (** what [printf] wrote, oldest first *)
  w_stderr : list diag;    (** what reached [stderr], oldest first *)
  w_cwd    : cstring;      (** the working directory *)
  w_errno  : Z;
  w_strtok : cstring;      (** where [strtok (NULL, ...)] goes on *)
  w_allocs : nat;          (** [malloc]s and [realloc]s so far *)
  w_forks  : nat           (** [fork]s so far *)
}.

Definition set_stdin (i : list ascii) (w : world) : world :=
  World i (w_stdout w) (w_stderr w) (w_cwd w) (w_errno w) (w_strtok w)
        (w_allocs w) (w_forks w).
Definition add_stdout (s : string) (w : world) : world :=
  World (w_stdin w) (w_stdout w ++ [s]) (w_stderr w) (w_cwd w) (w_errno w)
        (w_strtok w) (w_allocs w) (w_forks w).
Definition add_stderr (d : diag) (w : world) : world :=
  World (w_stdin w) (w_stdout w) (w_stderr w ++ [d]) (w_cwd w) (w_errno w)
        (w_strtok w) (w_allocs w) (w_forks w).
Definition set_cwd (d : cstring) (w : world) : world :=
  World (w_stdin w) (w_stdout w) (w_stderr w) d (w_errno w) (w_strtok w)
        (w_allocs w) (w_forks w).
Definition set_errno (e : Z) (w : world) : world :=
  World (w_stdin w) (w_stdout w) (w_stderr w) (w_cwd w) e (w_strtok w)
        (w_allocs w) (w_forks w).
Definition set_strtok (s : cstring) (w : world) : world :=
  World (w_stdin w) (w_stdout w) (w_stderr w) (w_cwd w) (w_errno w) s
        (w_allocs w) (w_forks w).
Definition count_alloc (w : world) : world :=
  World (w_stdin w) (w_stdout w) (w_stderr w) (w_cwd w) (w_errno w)
        (w_strtok w) (S (w_allocs w)) (w_forks w).
Definition count_fork (w : world) : world :=
  World (w_stdin w) (w_stdout w) (w_stderr w) (w_cwd w) (w_errno w)
        (w_strtok w) (w_allocs w) (S (w_forks w)).

(** ** Outcomes *)

(** How the call of a C function ends. *)
Inductive outcome (A : Type) : Type :=
| Returns (a : A) (w : world)      (** it returned [a] *)
| Exits (status : Z) (w : world)   (** libc's [exit (status)] ended the process *)
| Execs (file : cstring) (args : list cstring) (w : world)
                                   (** [execvp] replaced the program *)
| Undefined (w : world)            (** undefined behaviour: a store through
                                       NULL or out of bounds, [int] overflow *)
| Blocks (w : world)               (** the wait for a child never ends *)
| OutOfFuel.                       (** the bound on loop iterations was hit *)
Arguments Returns {A} a w.
Arguments Exits {A} status w.
Arguments Execs {A} file args w.
Arguments Undefined {A} w.
Arguments Blocks {A} w.
Arguments OutOfFuel {A}.

Definition M (A : Type) : Type := world -> outcome A.

Definition ret {A} (a : A) : M A := fun w => Returns a w.

Definition bind {A B} (m : M A) (k : A -> M B) : M B :=
  fun w =>
    match m w with
    | Returns a w' => k a w'
    | Exits s w' => Exits s w'
    | Execs f a w' => Execs f a w'
    | Undefined w' => Undefined w'
    | Blocks w' => Blocks w'
    | OutOfFuel => OutOfFuel
    end.

Notation "'let*' x ':=' m 'in' k" := (bind m (fun x => k))
  (at level 10, x pattern, m at level 100, k at level 200).

Definition undefined {A} : M A := fun w => Undefined w.

(** Reading off an outcome. *)
Definition returned {A} (o : outcome A) : option A :=
  match o with Returns a _ => Some a | _ => None end.
Definition exited {A} (o : outcome A) : option Z :=
  match o with Exits s _ => Some s | _ => None end.
Definition process_ended {A} (o : outcome A) : bool :=
  match o with Exits _ _ => true | _ => false end.
Definition final_world {A} (o : outcome A) : option world :=
  match o with
  | Returns _ w | Exits _ w | Execs _ _ w | Undefined w | Blocks w => Some w
  | OutOfFuel => None
  end.

(** ** The C library and the system calls *)

Section Libc.
Variable E : os.

Definition printf (s : string) : M unit :=
  fun w => Returns tt (add_stdout s w).

Definition fprintf_stderr (s : string) : M unit :=
  fun w => Returns tt (add_stderr (Message s) w).

Definition perror (prefix : string) : M unit :=
  fun w => Returns tt (add_stderr (Perror prefix (w_errno w)) w).

(** libc's [exit]: the process ends there. *)
Definition exit (status : Z) : M Z :=
  fun w => Exits status w.

(** [getchar]: the next character as a non-negative [int], or [EOF].
    End-of-input stays. *)
Definition getchar : M Z :=
  fun w =>
    match w_stdin w with
    | [] => Returns EOF w
    | c :: rest => Returns (Z.of_N (N_of_ascii c)) (set_stdin rest w)
    end.

(** An [int] stored in a [char]. *)
Definition char_of_int (c : Z) : ascii := ascii_of_N (Z.to_N (c mod 256)).

(** One request to the allocator. *)
Definition allocate : M (option Z) :=
  fun w =>
    match os_heap E (w_allocs w) with
    | Some a => Returns (Some a) (count_alloc w)
    | None => Returns None (set_errno ENOMEM (count_alloc w))
    end.

Definition junk (from n : nat) : list ascii := map (os_junk E) (seq from n).

(** A block of [char]: NULL, or its cells. *)
Definition malloc_chars (n : Z) : M (option (list ascii)) :=
  let* a := allocate in
  ret (match a with
       | Some _ => Some (junk 0 (Z.to_nat n))
       | None => None
       end).

(** [realloc]: the old cells are kept and junk follows them; when it
    fails the old block stays as it is and NULL comes back. *)
Definition realloc_chars (old : option (list ascii)) (n : Z)
  : M (option (list ascii)) :=
  let* a := allocate in
  ret (match a with
       | Some _ =>
           let cells := take (Z.to_nat n) (default [] old) in
           Some (cells ++ junk (length cells) (Z.to_nat n - length cells))
       | None => None
       end).

(** [buffer[i] = c] *)
Definition store_char (buffer : option (list ascii)) (i : Z) (c : ascii)
  : M (option (list ascii)) :=
  match buffer with
  | None => undefined
  | Some cells =>
      if (0 <=? i) && (i <? Z.of_nat (length cells))
      then ret (Some (<[Z.to_nat i := c]> cells))
      else undefined
  end.

(** An array of [char *]: NULL, or its address with the entries written
    so far.  The code writes entry [position] and then increments
    [position], so a store is a push. *)
Definition malloc_ptrs : M (option argv) :=
  let* a := allocate in
  ret (match a with Some p => Some (Argv p []) | None => None end).

Definition realloc_ptrs (old : option argv) : M (option argv) :=
  let* a := allocate in
  ret (match a with
       | Some p => Some (Argv p (match old with
                                 | Some t => argv_toks t
                                 | None => []
                                 end))
       | None => None
       end).

Definition store_ptr (tokens : option argv) (token : cstring)
  : M (option argv) :=
  match tokens with
  | None => undefined
  | Some t => ret (Some (Argv (argv_ptr t) (argv_toks t ++ [token])))
  end.

(** [int] addition; overflow is undefined. *)
Definition int_add (a b : Z) : M Z :=
  if (a + b <=? INT_MAX) && (- INT_MAX - 1 <=? a + b)
  then ret (a + b) else undefined.

(** [strcmp] reads both strings up to their terminators; cells behind a
    NUL are not looked at. *)
Fixpoint strcmp (a b : cstring) : Z :=
  match a, b with
  | [], [] => 0
  | [], y :: _ => - Z.of_N (N_of_ascii y)
  | x :: _, [] => Z.of_N (N_of_ascii x)
  | x :: a', y :: b' =>
      if Ascii.eqb x y then (if Ascii.eqb x NUL then 0 else strcmp a' b')
      else Z.of_N (N_of_ascii x) - Z.of_N (N_of_ascii y)
  end.

(** [strtok].  [skip_delims] is [s + strspn (s, delim)]; [scan_token]
    cuts the token at the first delimiter and gives what lies behind
    that delimiter. *)
Definition in_set (delim : cstring) (c : ascii) : bool :=
  existsb (Ascii.eqb c) delim.

Fixpoint skip_delims (delim : cstring) (s : cstring) : cstring :=
  match s with
  | [] => []
  | c :: rest => if in_set delim c then skip_delims delim rest else s
  end.

Fixpoint scan_token (delim : cstring) (s : cstring) : cstring * cstring :=
  match s with
  | [] => ([], [])
  | c :: rest =>
      if in_set delim c then ([], rest)
      else let '(tok, behind) := scan_token delim rest in (c :: tok, behind)
  end.

Definition strtok (str : option (list ascii)) (delim : cstring)
  : M (option cstring) :=
  fun w =>
    let s := match str with Some cells => c_str cells | None => w_strtok w end in
    match skip_delims delim s with
    | [] => Returns None (set_strtok [] w)
    | s' => let '(tok, behind) := scan_token delim s' in
            Returns (Some tok) (set_strtok behind w)
    end.

Definition chdir (path : cstring) : M Z :=
  fun w =>
    match os_chdir E (w_cwd w) path with
    | Ok d => Returns 0 (set_cwd d w)
    | Err e => Returns (-1) (set_errno e w)
    end.

Definition fork : M Z :=
  fun w =>
    match os_fork E (w_forks w) with
    | Ok pid => Returns pid (count_fork w)
    | Err e => Returns (-1) (set_errno e (count_fork w))
    end.

Definition execvp (file : cstring) (args : list cstring) : M Z :=
  fun w =>
    match os_execvp E file args with
    | None => Execs file args w
    | Some e => Returns (-1) (set_errno e w)
    end.

(** [waitpid (pid, &status, WUNTRACED)] with the answer of the system to
    this call; what comes back is the content of [status] after the call
    (the code does not look at what [waitpid] returns).  A call that
    fails sets [errno] and stores nothing. *)
Definition waitpid (answer : sysres wstatus) (status : wstatus) : M wstatus :=
  fun w =>
    match answer with
    | Ok s => Returns s w
    | Err e => Returns status (set_errno e w)
    end.
End Libc.

(** ** The program *)

Section Tash.
Variable E : os.

Definition builtin_str : list cstring := [cs "cd"; cs "help"; cs "exit"].

Definition tash_num_builtins : nat := length builtin_str.

Definition nl : string := String LF EmptyString.
Definition usage_cd : string :=
  ("tash: expected argument to " ++ String QUOTE ("cd" ++ String QUOTE nl))%string.
Definition allocation_error : string := ("tash: allocation error" ++ nl)%string.
Definition colour (code : string) : string :=
  String ESC ("[0;" ++ code ++ "m")%string.

(** [int cd (char **args)] *)
Definition cd (args : argv) : M Z :=
  match argv_toks args with
  | [] => undefined               (* args[1] lies behind the NULL entry *)
  | [_] =>                        (* args[1] == NULL *)
      let* _ := fprintf_stderr usage_cd in
      ret 1
  | _ :: path :: _ =>
      let* r := chdir E path in
      let* _ := (if negb (r =? 0) then perror "tash" else ret tt) in
      ret 1
  end.

Fixpoint help_names (names : list cstring) : M unit :=
  match names with
  | [] => ret tt
  | name :: rest =>
      let* _ := printf ("  " ++ string_of_list_ascii name ++ nl) in
      help_names rest
  end.

(** [int help (char **args)] *)
Definition help (args : argv) : M Z :=
  let* _ := printf ("The Amazing SHell:TASH!" ++ nl) in
  let* _ := printf ("Type program names and arguments, and hit enter." ++ nl) in
  let* _ := printf ("The following are built in:" ++ nl) in
  let* _ := help_names (firstn tash_num_builtins builtin_str) in
  let* _ := printf ("Use the man command for information on other programs." ++ nl) in
  ret 1.

(** [int tash_exit (char **args)]: returns 0 and does nothing else.  The
    callers pass it [EXIT_SUCCESS] or [EXIT_FAILURE] as the pointer. *)
Definition tash_exit (args : Z) : M Z := ret 0.

(** The third entry is [&exit], the function of the C library, not
    [&tash_exit]; called through the table it receives the pointer
    [args] where it expects its [int].  (C leaves a call through a
    pointer of the wrong type undefined; with the usual calling
    conventions the callee finds the low half of the pointer.) *)
Definition builtin_func : list (argv -> M Z) :=
  [cd; help; fun args => exit (int_of_ptr (argv_ptr args))].

(** The [do ... while] around [waitpid].  [status] is what the variable
    holds when the round begins: in the first round what the stack held,
    since [int status] is declared without a value. *)
Fixpoint wait_loop (status : wstatus) (answers : list (sysres wstatus))
  : M unit :=
  match answers with
  | [] => fun w => Blocks w
  | answer :: later =>
      let* status := waitpid answer status in
      if negb (WIFEXITED status) && negb (WIFSIGNALED status)
      then wait_loop status later
      else ret tt
  end.

(** [int tash_launch (char **args)] *)
Definition tash_launch (args : argv) : M Z :=
  let* pid := fork E in
  let* _ :=
    (if pid =? 0 then
       (* Child process *)
       let* _ :=
         (match argv_toks args with
          | [] => undefined
          | file :: _ =>
              let* r := execvp E file (argv_toks args) in
              if r =? -1 then perror "tash" else ret tt
          end) in
       let* _ := tash_exit EXIT_FAILURE in
       ret tt
     else if pid <? 0 then
       (* Error forking *)
       perror "tash"
     else
       (* Parent process *)
       wait_loop (os_stack E) (os_wait E pid)) in
  ret 1.

(** The [for] loop of [tash_execute], from index [i], with [todo]
    entries of the table left. *)
Fixpoint builtin_loop (todo i : nat) (args : argv) (name : cstring) : M Z :=
  match todo with
  | O => tash_launch args
  | S todo' =>
      match builtin_str !! i, builtin_func !! i with
      | Some s, Some f =>
          if strcmp name s =? 0 then f args
          else builtin_loop todo' (S i) args name
      | _, _ => undefined
      end
  end.

(** [int tash_execute (char **args)] *)
Definition tash_execute (args : argv) : M Z :=
  let* _ := printf (colour "33") in
  match argv_toks args with
  | [] => ret 1     (* An empty command was entered. *)
  | name :: _ => builtin_loop tash_num_builtins 0 args name
  end.

Definition tash_RL_BUFSIZE : Z := 1024.

(** The part of the [while (1)] body behind the [if]: [position++] and
    the growth of the buffer. *)
Definition read_advance (buffer : option (list ascii)) (position bufsize : Z)
  : M (option (list ascii) * Z * Z) :=
  let* position := int_add position 1 in
  if position >=? bufsize then
    let* bufsize := int_add bufsize tash_RL_BUFSIZE in
    let* buffer := realloc_chars E buffer bufsize in
    let* _ :=
      (match buffer with
       | None =>
           let* _ := fprintf_stderr allocation_error in
           let* _ := tash_exit EXIT_FAILURE in
           ret tt
       | Some _ => ret tt
       end) in
    ret (buffer, position, bufsize)
  else ret (buffer, position, bufsize).

Fixpoint read_loop (fuel : nat) (buffer : option (list ascii))
         (position bufsize : Z) : M (list ascii) :=
  match fuel with
  | O => fun _ => OutOfFuel
  | S fuel' =>
      let* c := getchar in
      if c =? EOF then
        let* _ := tash_exit EXIT_SUCCESS in
        let* (buffer, position, bufsize) := read_advance buffer position bufsize in
        read_loop fuel' buffer position bufsize
      else if c =? Z.of_N (N_of_ascii LF) then
        let* buffer := store_char buffer position NUL in
        match buffer with
        | Some cells => ret cells
        | None => undefined
        end
      else
        let* buffer := store_char buffer position (char_of_int c) in
        let* (buffer, position, bufsize) := read_advance buffer position bufsize in
        read_loop fuel' buffer position bufsize
  end.

(** [char *tash_read_line (void)], the branch compiled when
    [tash_USE_STD_GETLINE] is not defined.  [fuel] bounds the
    iterations of [while (1)]. *)
Definition tash_read_line (fuel : nat) : M (list ascii) :=
  let bufsize := tash_RL_BUFSIZE in
  let position := 0 in
  let* buffer := malloc_chars E bufsize in
  let* _ :=
    (match buffer with
     | None =>
         let* _ := fprintf_stderr allocation_error in
         let* _ := tash_exit EXIT_FAILURE in
         ret tt
     | Some _ => ret tt
     end) in
  read_loop fuel buffer position bufsize.

Definition tash_TOK_BUFSIZE : Z := 64.
Definition tash_TOK_DELIM : cstring := [SPC; TAB; CR; LF; BEL].

(** The [while (token != NULL)] loop.  Every round takes at least one
    character of the line, so [fuel] is given from its length. *)
Fixpoint split_loop (fuel : nat) (token : option cstring)
         (tokens : option argv) (position bufsize : Z)
  : M (option argv * Z) :=
  match token with
  | None => ret (tokens, position)
  | Some t =>
      match fuel with
      | O => fun _ => OutOfFuel
      | S fuel' =>
          let* tokens := store_ptr tokens t in
          let* position := int_add position 1 in
          let* (tokens, bufsize) :=
            (if position >=? bufsize then
               let* bufsize := int_add bufsize tash_TOK_BUFSIZE in
               let* tokens := realloc_ptrs E tokens in
               let* _ :=
                 (match tokens with
                  | None =>
                      (* free (tokens_backup) *)
                      let* _ := fprintf_stderr allocation_error in
                      let* _ := tash_exit EXIT_FAILURE in
                      ret tt
                  | Some _ => ret tt
                  end) in
               ret (tokens, bufsize)
             else ret (tokens, bufsize)) in
          let* token := strtok None tash_TOK_DELIM in
          split_loop fuel' token tokens position bufsize
      end
  end.

(** [char **tash_split_line (char *line)].  The tokens point into
    [line], which is not read again; they are taken by value. *)
Definition tash_split_line (line : list ascii) : M argv :=
  let bufsize := tash_TOK_BUFSIZE in
  let position := 0 in
  let* tokens := malloc_ptrs E in
  let* _ :=
    (match tokens with
     | None =>
         let* _ := fprintf_stderr allocation_error in
         let* _ := tash_exit EXIT_FAILURE in
         ret tt
     | Some _ => ret tt
     end) in
  let* token := strtok (Some line) tash_TOK_DELIM in
  let* (tokens, position) :=
    split_loop (S (length line)) token tokens position bufsize in
  (* tokens[position] = NULL *)
  match tokens with
  | Some args => ret args
  | None => undefined
  end.

(** [void tash_loop (void)]; [fuel] bounds the rounds of the
    [do ... while] and the reads of each round. *)
Fixpoint tash_loop (fuel : nat) : M unit :=
  match fuel with
  | O => fun _ => OutOfFuel
  | S fuel' =>
      let* _ := printf (colour "35") in
      let* _ := printf "tash" in
      let* _ := printf (colour "31") in
      let* _ := printf "> " in
      let* _ := printf (colour "36") in
      let* line := tash_read_line fuel in
      let* args := tash_split_line line in
      let* _ := printf (colour "33") in
      let* status := tash_execute args in
      (* free (line); free (args) *)
      if status =? 0 then ret tt else tash_loop fuel'
  end.

(** [int main (int argc, char **argv)] *)
Definition main (fuel : nat) : M Z :=
  let* _ := tash_loop fuel in
  ret EXIT_SUCCESS.
End Tash.

(** ** What the specification talks about *)

Definition is_delim (c : ascii) : bool := in_set tash_TOK_DELIM c.

(** The line ends, or a delimiter comes next. *)
Definition at_boundary (s : cstring) : Prop :=
  match s with
  | [] => True
  | c :: _ => is_delim c = true
  end.

(** [splits s ts]: [ts] are the maximal runs of non-delimiters of [s], in
    order.  A token is not empty, holds no delimiter, and is followed by a
    delimiter or the end of the line; since the token before it ends at a
    delimiter too, it cannot be extended on either side. *)
Inductive splits : cstring -> list cstring -> Prop :=
| splits_end : splits [] []
| splits_delim c s ts :
    is_delim c = true -> splits s ts -> splits (c :: s) ts
| splits_token t s ts :
    t <> [] -> forallb (fun c => negb (is_delim c)) t = true ->
    at_boundary s -> splits s ts -> splits (t ++ s) (t :: ts).

(** The tokens joined with single spaces. *)
Fixpoint join_spaces (toks : list cstring) : cstring :=
  match toks with
  | [] => []
  | [t] => t
  | t :: rest => t ++ SPC :: join_spaces rest
  end.

(** A token as the tokenizer hands it out: a C string (no NUL inside)
    that is not empty and holds no delimiter. *)
Definition is_token (t : cstring) : bool :=
  negb (Nat.eqb (length t) 0)
  && forallb (fun c => negb (is_delim c) && negb (Ascii.eqb c NUL)) t.

(** The sequence of results of [strtok] on [s], without the memory
    around it. *)
Fixpoint tokens_from (fuel : nat) (s : cstring) : list cstring :=
  match fuel with
  | O => []
  | S fuel' =>
      match skip_delims tash_TOK_DELIM s with
      | [] => []
      | s' => let '(t, behind) := scan_token tash_TOK_DELIM s' in
              t :: tokens_from fuel' behind
      end
  end.

Definition tokens_of (s : cstring) : list cstring :=
  tokens_from (S (length s)) s.

(** The value in [status] says that the child has exited or was killed. *)
Definition gone (status : wstatus) : bool :=
  WIFEXITED status || WIFSIGNALED status.

(** What [status] holds after a call of [waitpid]: what the call stored,
    or, when it failed, what was there before. *)
Definition status_after (answer : sysres wstatus) (status : wstatus)
  : wstatus :=
  match answer with Ok s => s | Err _ => status end.

(** The loop around [waitpid] comes to an end: after one of the calls
    [status] says that the child is gone. *)
Fixpoint wait_ends (status : wstatus) (answers : list (sysres wstatus))
  : bool :=
  match answers with
  | [] => false
  | answer :: later =>
      gone (status_after answer status)
      || wait_ends (status_after answer status) later
  end.

(** [errno] when the loop is left, or when the answers have run out:
    that of the last call that failed, if one did. *)
Fixpoint wait_errno (status : wstatus) (answers : list (sysres wstatus))
         (errno : Z) : Z :=
  match answers with
  | [] => errno
  | answer :: later =>
      let errno' := match answer with Ok _ => errno | Err e => e end in
      if gone (status_after answer status) then errno'
      else wait_errno (status_after answer status) later errno'
  end.

(** The first token names a builtin, or there is none. *)
Definition runs_in_process (args : argv) : bool :=
  match argv_toks args with
  | [] => true
  | name :: _ => existsb (fun s => strcmp name s =? 0) builtin_str
  end.

(** The string that [args[0]] points to, when it is not NULL. *)
Definition first_token (args : argv) : option cstring :=
  option_map c_str (head (argv_toks args)).

(** Whatever the state, the computation does not end the process. *)
Definition never_exits {A} (m : M A) : Prop :=
  forall w, process_ended (m w) = false.

(** From the [n]-th request on the allocator always gives a block. *)
Definition heap_gives_from (E : os) (n : nat) : Prop :=
  forall k, (n <= k)%nat -> os_heap E k <> None.

(** ** Environments to run the model in *)

(** Every allocation succeeds, [/tmp] is the one directory, [fork] gives
    the parent child 42, no program can be executed, and the child is
    stopped once before it exits; no [waitpid] fails. *)
Definition os_plain : os :=
  Os (fun k => Some (16 * Z.of_nat k + 93824992252576))
     (fun _ => "?"%char)
     (fun _ path => if strcmp path (cs "/tmp") =? 0 then Ok path else Err 2)
     (fun _ => Ok 42)
     (fun _ _ => Some 2)
     (fun _ => [Ok (WStopped 19); Ok (WExited 0)])
     (WOther 21845).

(** The same, seen from the forked child. *)
Definition os_child : os :=
  Os (os_heap os_plain) (os_junk os_plain) (os_chdir os_plain)
     (fun _ => Ok 0) (os_execvp os_plain) (os_wait os_plain)
     (os_stack os_plain).

(** The same, with an allocator that has nothing to give. *)
Definition os_no_memory : os :=
  Os (fun _ => None) (os_junk os_plain) (os_chdir os_plain)
     (os_fork os_plain) (os_execvp os_plain) (os_wait os_plain)
     (os_stack os_plain).

(** The same, with an allocator that gives one block and no more. *)
Definition os_one_block : os :=
  Os (fun k => if Nat.eqb k 0 then Some 93824992252576 else None)
     (os_junk os_plain) (os_chdir os_plain)
     (os_fork os_plain) (os_execvp os_plain) (os_wait os_plain)
     (os_stack os_plain).

(** A fresh process in [/home] with [input] waiting on standard input. *)
Definition start (input : list ascii) : world :=
  World input [] [] (cs "/home") 0 [] 0 0.

Definition line_echo : list ascii :=
  cs "echo  a   b" ++ [TAB] ++ cs "c" ++ [LF].

(** Sixty-four tokens, as many as the first array of pointers holds. *)
Definition line_64 : list ascii := concat (repeat (cs "a ") 64).

(** A line as long as the first buffer of the reader. *)
Definition input_1024 : list ascii := repeat "a"%char 1024 ++ [LF].

(** ** More to state properties with *)

(** [n] more requests have been answered by the allocator. *)
Definition add_allocs (n : nat) (w : world) : world :=
  World (w_stdin w) (w_stdout w) (w_stderr w) (w_cwd w) (w_errno w)
        (w_strtok w) (n + w_allocs w) (w_forks w).

(** The size of a buffer that started at [unit] cells, grows by [unit]
    and has [position] cells in use. *)
Definition grown_size (unit position : Z) : Z :=
  unit * (position / unit + 1).

(** No newline in the characters. *)
Definition one_line (s : list ascii) : bool :=
  forallb (fun c => negb (Ascii.eqb c LF)) s.

(** [os_plain] with a [fork] that fails with EAGAIN. *)
Definition os_no_fork : os :=
  Os (os_heap os_plain) (os_junk os_plain) (os_chdir os_plain)
     (fun _ => Err 11) (os_execvp os_plain) (os_wait os_plain)
     (os_stack os_plain).

(** [os_child] with an [execvp] that finds every program. *)
Definition os_child_exec : os :=
  Os (os_heap os_plain) (os_junk os_plain) (os_chdir os_plain)
     (fun _ => Ok 0) (fun _ _ => None) (os_wait os_plain)
     (os_stack os_plain).

(** What [help] writes. *)
Definition help_text : list string :=
  [("The Amazing SHell:TASH!" ++ nl)%string;
   ("Type program names and arguments, and hit enter." ++ nl)%string;
   ("The following are built in:" ++ nl)%string]
  ++ map (fun name => ("  " ++ string_of_list_ascii name ++ nl)%string) builtin_str
  ++ [("Use the man command for information on other programs." ++ nl)%string].

(** The strings that do nothing but set the colour of the terminal. *)
Definition colour_codes : list string :=
  [colour "31"; colour "33"; colour "35"; colour "36"].

Definition is_colour_code (s : string) : bool :=
  existsb (String.eqb s) colour_codes.

(** The state with the colours of the terminal left out. *)
Definition uncoloured (w : world) : world :=
  World (w_stdin w)
        (List.filter (fun s => negb (is_colour_code s)) (w_stdout w))
        (w_stderr w) (w_cwd w) (w_errno w) (w_strtok w) (w_allocs w)
        (w_forks w).

(** The answers of [waitpid] with every status that is stored seen
    through [f]. *)
Definition relabel (f : wstatus -> wstatus) (answer : sysres wstatus)
  : sysres wstatus :=
  match answer with Ok s => Ok (f s) | Err e => Err e end.

(** [os_plain] with a child that is stopped, a [waitpid] that is
    interrupted (EINTR), and a child that is then killed by signal 9. *)
Definition os_interrupted : os :=
  Os (os_heap os_plain) (os_junk os_plain) (os_chdir os_plain)
     (os_fork os_plain) (os_execvp os_plain)
     (fun _ => [Ok (WStopped 19); Err 4; Ok (WSignaled 9)])
     (os_stack os_plain).

(** What the loop writes before it reads a line, and the colour code it
    writes before it dispatches. *)
Definition prompt_text : list string :=
  [colour "35"; "tash"%string; colour "31"; "> "%string; colour "36"; colour "33"].

(** * Proofs *)

Arguments in_set : simpl never.
Arguments is_delim : simpl never.

(** ** Strings *)

Lemma code_zero (x : ascii) : Z.of_N (N_of_ascii x) = 0 -> x = NUL.
Proof.
  intros H. rewrite <- (ascii_N_embedding x).
  replace (N_of_ascii x) with 0%N by lia. reflexivity.
Qed.

Lemma N_of_ascii_inj (x y : ascii) : N_of_ascii x = N_of_ascii y -> x = y.
Proof.
  intros H. rewrite <- (ascii_N_embedding x), <- (ascii_N_embedding y).
  now rewrite H.
Qed.

Lemma strcmp_same (a b : cstring) : c_str a = c_str b -> strcmp a b = 0.
Proof.
  revert b; induction a as [|x a IH]; intros [|y b]; simpl.
  - reflexivity.
  - destruct (Ascii.eqb y NUL) eqn:Hy; [|discriminate].
    apply Ascii.eqb_eq in Hy. now subst y.
  - destruct (Ascii.eqb x NUL) eqn:Hx; [|discriminate].
    apply Ascii.eqb_eq in Hx. now subst x.
  - destruct (Ascii.eqb x NUL) eqn:Hx, (Ascii.eqb y NUL) eqn:Hy;
      try discriminate.
    + apply Ascii.eqb_eq in Hx, Hy. subst. reflexivity.
    + intros [= -> H]. rewrite Ascii.eqb_refl. now apply IH.
Qed.

Lemma strcmp_eq (a b : cstring) : strcmp a b = 0 -> c_str a = c_str b.
Proof.
  revert b; induction a as [|x a IH]; intros [|y b]; simpl; intros H.
  - reflexivity.
  - assert (y = NUL) as -> by (apply code_zero; lia). reflexivity.
  - assert (x = NUL) as -> by (apply code_zero; lia). reflexivity.
  - destruct (Ascii.eqb x y) eqn:Hxy.
    + apply Ascii.eqb_eq in Hxy. subst y.
      destruct (Ascii.eqb x NUL); [reflexivity|]. f_equal. now apply IH.
    + exfalso. apply Ascii.eqb_neq in Hxy. apply Hxy, N_of_ascii_inj. lia.
Qed.

Lemma strcmp_neq (a b : cstring) :
  c_str a <> c_str b -> (strcmp a b =? 0) = false.
Proof.
  intros H. apply Z.eqb_neq. intros H0. now apply H, strcmp_eq.
Qed.

(** ** [strtok] by itself *)

Lemma skip_delims_split (s : cstring) :
  exists d, s = d ++ skip_delims tash_TOK_DELIM s /\ forallb is_delim d = true.
Proof.
  induction s as [|c s (d & Hs & Hd)]; simpl.
  - now exists [].
  - destruct (in_set tash_TOK_DELIM c) eqn:Hc.
    + exists (c :: d). simpl. unfold is_delim at 1. rewrite Hc, Hd.
      split; [now f_equal|reflexivity].
    + now exists [].
Qed.

Lemma skip_delims_head (s : cstring) c r :
  skip_delims tash_TOK_DELIM s = c :: r -> is_delim c = false.
Proof.
  induction s as [|x s IH]; simpl; [discriminate|].
  destruct (in_set tash_TOK_DELIM x) eqn:Hx; [exact IH|].
  now intros [= <- _].
Qed.

Lemma skip_delims_length (s : cstring) :
  (length (skip_delims tash_TOK_DELIM s) <= length s)%nat.
Proof.
  induction s as [|x s IH]; simpl; [lia|].
  destruct (in_set tash_TOK_DELIM x); simpl; lia.
Qed.

Lemma scan_token_spec (s t b : cstring) :
  scan_token tash_TOK_DELIM s = (t, b) ->
  forallb (fun c => negb (is_delim c)) t = true
  /\ ((s = t /\ b = []) \/ exists c, is_delim c = true /\ s = t ++ c :: b).
Proof.
  revert t b; induction s as [|x s IH]; simpl; intros t b.
  - intros [= <- <-]. split; [reflexivity|now left].
  - destruct (in_set tash_TOK_DELIM x) eqn:Hx.
    + intros [= <- <-]. split; [reflexivity|]. right. now exists x.
    + destruct (scan_token tash_TOK_DELIM s) as [t' b'] eqn:Hs.
      intros [= <- <-]. destruct (IH _ _ eq_refl) as [Ht Hcase].
      split.
      * simpl. unfold is_delim at 1. now rewrite Hx, Ht.
      * destruct Hcase as [[-> ->]|(c & Hc & ->)]; [now left|].
        right. now exists c.
Qed.

Lemma scan_token_first (c : ascii) (r t b : cstring) :
  is_delim c = false -> scan_token tash_TOK_DELIM (c :: r) = (t, b) -> t <> [].
Proof.
  simpl. unfold is_delim. intros ->.
  destruct (scan_token tash_TOK_DELIM r). now intros [= <- _].
Qed.

Lemma scan_token_length (s t b : cstring) :
  scan_token tash_TOK_DELIM s = (t, b) -> (length t + length b <= length s)%nat.
Proof.
  intros H. destruct (scan_token_spec _ _ _ H) as [_ [[-> ->]|(c & _ & ->)]].
  - simpl. lia.
  - rewrite length_app. simpl. lia.
Qed.

(** What one round of [strtok] does to the rest of the line. *)
Lemma strtok_round (s : cstring) c r t b :
  skip_delims tash_TOK_DELIM s = c :: r ->
  scan_token tash_TOK_DELIM (c :: r) = (t, b) ->
  t <> [] /\ (length t + length b <= length s)%nat.
Proof.
  intros Hskip Hscan. split.
  - eapply scan_token_first; [|exact Hscan]. eapply skip_delims_head, Hskip.
  - pose proof (skip_delims_length s) as Hl. rewrite Hskip in Hl.
    pose proof (scan_token_length _ _ _ Hscan). lia.
Qed.

(** ** The tokens are the maximal runs *)

Lemma splits_delims (d s : cstring) ts :
  forallb is_delim d = true -> splits s ts -> splits (d ++ s) ts.
Proof.
  induction d as [|c d IH]; simpl; [auto|].
  intros [Hc Hd]%andb_prop Hs. apply splits_delim; auto.
Qed.

Lemma tokens_from_splits (fuel : nat) (s : cstring) :
  (length s < fuel)%nat -> splits s (tokens_from fuel s).
Proof.
  revert s; induction fuel as [|fuel IH]; intros s Hlen; [lia|].
  cbn [tokens_from]. destruct (skip_delims_split s) as (d & Hs & Hd).
  destruct (skip_delims tash_TOK_DELIM s) as [|c r] eqn:Hskip.
  - rewrite Hs. apply splits_delims; [exact Hd|constructor].
  - destruct (scan_token tash_TOK_DELIM (c :: r)) as [t b] eqn:Hscan.
    destruct (strtok_round _ _ _ _ _ Hskip Hscan) as [Ht Hl].
    assert (length b < fuel)%nat as Hb.
    { destruct t; [congruence|]. simpl in Hl. lia. }
    destruct (scan_token_spec _ _ _ Hscan) as [Hnd Hcase].
    rewrite Hs. apply splits_delims; [exact Hd|].
    destruct Hcase as [[-> ->]|(x & Hx & ->)].
    + rewrite <- (app_nil_r t) at 1.
      apply splits_token; auto; exact I.
    + apply splits_token; auto.
      apply splits_delim; auto.
Qed.

Lemma token_cut (t1 t2 s1 s2 : cstring) :
  forallb (fun c => negb (is_delim c)) t1 = true ->
  forallb (fun c => negb (is_delim c)) t2 = true ->
  at_boundary s1 -> at_boundary s2 ->
  t1 ++ s1 = t2 ++ s2 -> t1 = t2 /\ s1 = s2.
Proof.
  revert t2; induction t1 as [|x t1 IH]; intros [|y t2]; simpl;
    intros H1 H2 B1 B2 Heq.
  - auto.
  - subst s1. simpl in B1. apply andb_prop in H2 as [Hy _].
    rewrite B1 in Hy. discriminate.
  - subst s2. simpl in B2. apply andb_prop in H1 as [Hx _].
    rewrite B2 in Hx. discriminate.
  - injection Heq as -> Heq.
    apply andb_prop in H1 as [_ H1]. apply andb_prop in H2 as [_ H2].
    destruct (IH t2 H1 H2 B1 B2 Heq) as [-> ->]. auto.
Qed.

Lemma splits_unique (s : cstring) ts ts' :
  splits s ts -> splits s ts' -> ts = ts'.
Proof.
  intros H; revert ts'.
  induction H as [|c s ts Hc H IH|t s ts Ht Hnd Hb H IH]; intros ts' H'.
  - remember [] as l eqn:Hl.
    destruct H' as [|c' s' ts'' Hc' H''|t' s' ts'' Ht' Hnd' Hb' H''].
    + reflexivity.
    + discriminate.
    + destruct t'; [congruence|discriminate].
  - remember (c :: s) as l eqn:Hl.
    destruct H' as [|c' s' ts'' Hc' H''|t' s' ts'' Ht' Hnd' Hb' H''].
    + discriminate.
    + injection Hl as -> ->. now apply IH.
    + destruct t' as [|x t']; [congruence|]. simpl in Hl, Hnd'.
      injection Hl as -> _. rewrite Hc in Hnd'. discriminate.
  - remember (t ++ s) as l eqn:Hl.
    destruct H' as [|c' s' ts'' Hc' H''|t' s' ts'' Ht' Hnd' Hb' H''].
    + destruct t; [congruence|discriminate].
    + destruct t as [|x t]; [congruence|]. simpl in Hl, Hnd.
      injection Hl as -> _. rewrite Hc' in Hnd. discriminate.
    + destruct (token_cut _ _ _ _ Hnd' Hnd Hb' Hb Hl) as [-> ->].
      f_equal. now apply IH.
Qed.

Lemma tokens_from_enough (fuel : nat) (s : cstring) :
  (length s < fuel)%nat -> tokens_from fuel s = tokens_of s.
Proof.
  intros H. eapply splits_unique; apply tokens_from_splits; [exact H|lia].
Qed.

Lemma tokens_of_splits (s : cstring) : splits s (tokens_of s).
Proof. apply tokens_from_splits. lia. Qed.

Lemma tokens_of_step (s : cstring) :
  tokens_of s =
  match skip_delims tash_TOK_DELIM s with
  | [] => []
  | s' => let '(t, behind) := scan_token tash_TOK_DELIM s' in
          t :: tokens_of behind
  end.
Proof.
  unfold tokens_of at 1. cbn [tokens_from].
  destruct (skip_delims tash_TOK_DELIM s) as [|c r] eqn:Hskip; [reflexivity|].
  destruct (scan_token tash_TOK_DELIM (c :: r)) as [t b] eqn:Hscan.
  f_equal. apply tokens_from_enough.
  destruct (strtok_round _ _ _ _ _ Hskip Hscan) as [Ht Hl].
  destruct t; [congruence|]. simpl in Hl. lia.
Qed.

(** ** Running the monad *)

Lemma bind_returns {A B} (m : M A) (k : A -> M B) w a w' :
  m w = Returns a w' -> bind m k w = k a w'.
Proof. unfold bind. now intros ->. Qed.

Lemma allocate_gives (E : os) (w : world) :
  heap_gives_from E (w_allocs w) ->
  exists a, allocate E w = Returns (Some a) (count_alloc w).
Proof.
  intros H. unfold allocate.
  destruct (os_heap E (w_allocs w)) as [a|] eqn:Ha.
  - now exists a.
  - exfalso. now apply (H (w_allocs w)).
Qed.

Lemma int_add_in_range (a b : Z) (w : world) :
  - INT_MAX - 1 <= a + b <= INT_MAX -> int_add a b w = Returns (a + b) w.
Proof.
  intros H. unfold int_add.
  replace (a + b <=? INT_MAX) with true by (symmetry; apply Z.leb_le; lia).
  replace (- INT_MAX - 1 <=? a + b) with true by (symmetry; apply Z.leb_le; lia).
  reflexivity.
Qed.

Lemma split_loop_gives (E : os) (fuel : nat) :
  forall tok toks p position bufsize w,
    heap_gives_from E (w_allocs w) ->
    position = Z.of_nat (length toks) ->
    position < bufsize <= position + tash_TOK_BUFSIZE ->
    let pending := match tok with
                   | None => []
                   | Some t => t :: tokens_of (w_strtok w)
                   end in
    (tok <> None -> (length (w_strtok w) < fuel)%nat) ->
    Z.of_nat (length (toks ++ pending)) + tash_TOK_BUFSIZE <= INT_MAX ->
    exists p' w',
      split_loop E fuel tok (Some (Argv p toks)) position bufsize w
      = Returns (Some (Argv p' (toks ++ pending)),
                 Z.of_nat (length (toks ++ pending))) w'.
Proof.
  induction fuel as [|fuel IH]; intros tok toks p position bufsize w
    Hheap Hpos Hbuf pending Hfuel Hmax.
  - destruct tok as [t|].
    + exfalso. specialize (Hfuel ltac:(discriminate)). lia.
    + exists p, w. subst pending. rewrite app_nil_r. simpl. unfold ret. now subst.
  - destruct tok as [t|].
    2:{ exists p, w. subst pending. rewrite app_nil_r. simpl. unfold ret. now subst. }
    specialize (Hfuel ltac:(discriminate)).
    cbn [split_loop].
    unfold store_ptr. cbn [argv_ptr argv_toks].
    erewrite bind_returns by reflexivity.
    subst pending. rewrite length_app in Hmax. cbn [length] in Hmax.
    erewrite bind_returns by (apply int_add_in_range; unfold INT_MAX, tash_TOK_BUFSIZE in *; lia).
    assert (exists p1 bufsize1 w1,
      (if position + 1 >=? bufsize
       then
         let* bufsize0 := int_add bufsize tash_TOK_BUFSIZE in
         let* tokens := realloc_ptrs E (Some (Argv p (toks ++ [t]))) in
         let* _ := match tokens with
                   | Some _ => ret tt
                   | None =>
                       let* _ := fprintf_stderr allocation_error in
                       let* _ := tash_exit EXIT_FAILURE in ret tt
                   end in
         ret (tokens, bufsize0)
       else ret (Some (Argv p (toks ++ [t])), bufsize)) w
      = Returns (Some (Argv p1 (toks ++ [t])), bufsize1) w1
      /\ position + 1 < bufsize1 <= position + 1 + tash_TOK_BUFSIZE
      /\ w_strtok w1 = w_strtok w
      /\ heap_gives_from E (w_allocs w1)) as (p1 & bufsize1 & w1 & Hgrow & Hbuf1 & Hst & Hheap1).
    { destruct (position + 1 >=? bufsize) eqn:Hge.
      - apply Z.geb_le in Hge.
        destruct (allocate_gives E w Hheap) as [a Ha].
        exists a, (bufsize + tash_TOK_BUFSIZE), (count_alloc w).
        split; [|split; [|split]].
        + erewrite bind_returns
            by (apply int_add_in_range; unfold INT_MAX, tash_TOK_BUFSIZE in *; lia).
          unfold realloc_ptrs.
          erewrite bind_returns by (erewrite bind_returns by exact Ha; reflexivity).
          reflexivity.
        + unfold tash_TOK_BUFSIZE in *. lia.
        + reflexivity.
        + intros k Hk. apply Hheap. simpl in Hk. lia.
      - exists p, bufsize, w. unfold ret.
        assert (position + 1 < bufsize) by (rewrite Z.geb_leb in Hge; apply Z.leb_gt in Hge; lia).
        repeat split; auto; unfold tash_TOK_BUFSIZE in *; lia. }
    erewrite bind_returns by exact Hgrow. clear Hgrow.
    rewrite (tokens_of_step (w_strtok w)) in *.
    destruct (skip_delims tash_TOK_DELIM (w_strtok w)) as [|c r] eqn:Hskip.
    + erewrite bind_returns
        by (unfold strtok; rewrite Hst, Hskip; reflexivity).
      destruct fuel; cbn [split_loop]; unfold ret; exists p1; eexists;
        rewrite Hpos, length_app, Nat2Z.inj_add; reflexivity.
    + destruct (scan_token tash_TOK_DELIM (c :: r)) as [t' b] eqn:Hscan.
      erewrite bind_returns
        by (unfold strtok; rewrite Hst, Hskip, Hscan; reflexivity).
      destruct (strtok_round _ _ _ _ _ Hskip Hscan) as [Ht' Hl].
      destruct (IH (Some t') (toks ++ [t]) p1 (position + 1) bufsize1
                   (set_strtok b w1)) as (p' & w' & Hrec).
      * exact Hheap1.
      * rewrite Hpos, length_app. simpl. lia.
      * exact Hbuf1.
      * intros _. simpl. destruct t'; [congruence|]. simpl in Hl. lia.
      * simpl. rewrite <- app_assoc. simpl. rewrite length_app. simpl.
        simpl in Hmax. lia.
      * exists p', w'. rewrite Hrec. simpl. rewrite <- app_assoc. reflexivity.
Qed.

Lemma c_str_length (cells : list ascii) : (length (c_str cells) <= length cells)%nat.
Proof.
  induction cells as [|c cells IH]; simpl; [lia|].
  destruct (Ascii.eqb c NUL); simpl; lia.
Qed.

Lemma splits_length (s : cstring) ts : splits s ts -> (length ts <= length s)%nat.
Proof.
  induction 1 as [|c s ts Hc H IH|t s ts Ht Hnd Hb H IH]; simpl; [lia|lia|].
  rewrite length_app. destruct t; [congruence|]. simpl. lia.
Qed.

(** With memory to be had and a line that [int] can count, the tokenizer
    returns the results of [strtok] in order. *)
Lemma tash_split_line_gives (E : os) (line : list ascii) (w : world) :
  heap_gives_from E (w_allocs w) ->
  Z.of_nat (length line) <= INT_MAX - tash_TOK_BUFSIZE ->
  exists p w',
    tash_split_line E line w = Returns (Argv p (tokens_of (c_str line))) w'.
Proof.
  intros Hheap Hlen. unfold tash_split_line.
  destruct (allocate_gives E w Hheap) as [a Ha].
  unfold malloc_ptrs.
  erewrite bind_returns by (erewrite bind_returns by exact Ha; reflexivity).
  erewrite bind_returns by reflexivity.
  pose proof (c_str_length line) as Hc.
  pose proof (splits_length _ _ (tokens_of_splits (c_str line))) as Hn.
  rewrite (tokens_of_step (c_str line)) in *.
  destruct (skip_delims tash_TOK_DELIM (c_str line)) as [|c r] eqn:Hskip.
  - erewrite bind_returns by (unfold strtok; rewrite Hskip; reflexivity).
    cbn [split_loop]. erewrite bind_returns by reflexivity.
    now exists a, (set_strtok [] (count_alloc w)).
  - destruct (scan_token tash_TOK_DELIM (c :: r)) as [t b] eqn:Hscan.
    erewrite bind_returns by (unfold strtok; rewrite Hskip, Hscan; reflexivity).
    destruct (strtok_round _ _ _ _ _ Hskip Hscan) as [Ht Hl].
    destruct (split_loop_gives E (S (length line)) (Some t) [] a 0
                tash_TOK_BUFSIZE (set_strtok b (count_alloc w)))
      as (p' & w' & Hloop).
    + intros k Hk. apply Hheap. simpl in Hk. lia.
    + reflexivity.
    + unfold tash_TOK_BUFSIZE. lia.
    + intros _. simpl. lia.
    + simpl in *. unfold tash_TOK_BUFSIZE in *. lia.
    + erewrite bind_returns by exact Hloop. now exists p', w'.
Qed.

Lemma c_str_clean (s : list ascii) :
  forallb (fun c => negb (Ascii.eqb c NUL)) s = true -> c_str s = s.
Proof.
  induction s as [|c s IH]; simpl; [reflexivity|].
  intros [Hc Hs]%andb_prop. apply negb_true_iff in Hc. rewrite Hc.
  f_equal. now apply IH.
Qed.

Lemma is_token_parts (t : cstring) :
  is_token t = true ->
  t <> [] /\ forallb (fun c => negb (is_delim c)) t = true
  /\ forallb (fun c => negb (Ascii.eqb c NUL)) t = true.
Proof.
  unfold is_token. intros [Hne Hall]%andb_prop. split; [|split].
  - intros ->. discriminate.
  - clear Hne. induction t as [|c t IH]; simpl in *; [reflexivity|].
    apply andb_prop in Hall as [[Hc _]%andb_prop Ht]. now rewrite Hc, IH.
  - clear Hne. induction t as [|c t IH]; simpl in *; [reflexivity|].
    apply andb_prop in Hall as [[_ Hc]%andb_prop Ht]. now rewrite Hc, IH.
Qed.

Lemma join_spaces_clean (toks : list cstring) :
  forallb is_token toks = true ->
  forallb (fun c => negb (Ascii.eqb c NUL)) (join_spaces toks) = true.
Proof.
  induction toks as [|t [|t' rest] IH]; [reflexivity| |].
  - simpl. intros [Ht _]%andb_prop. now apply is_token_parts in Ht as (_ & _ & Hn).
  - intros H. change (forallb is_token (t :: t' :: rest))
      with (is_token t && forallb is_token (t' :: rest)) in H.
    apply andb_prop in H as [Ht Hrest].
    apply is_token_parts in Ht as (_ & _ & Hn).
    change (join_spaces (t :: t' :: rest)) with (t ++ SPC :: join_spaces (t' :: rest)).
    rewrite forallb_app, Hn. simpl. now apply IH.
Qed.

Lemma join_spaces_splits (toks : list cstring) :
  forallb is_token toks = true -> splits (join_spaces toks) toks.
Proof.
  induction toks as [|t [|t' rest] IH]; [constructor| |].
  - simpl. intros [Ht _]%andb_prop. apply is_token_parts in Ht as (Hne & Hnd & _).
    rewrite <- (app_nil_r t) at 1. apply splits_token; auto; try exact I; constructor.
  - intros H. change (forallb is_token (t :: t' :: rest))
      with (is_token t && forallb is_token (t' :: rest)) in H.
    apply andb_prop in H as [Ht Hrest].
    apply is_token_parts in Ht as (Hne & Hnd & _).
    change (join_spaces (t :: t' :: rest)) with (t ++ SPC :: join_spaces (t' :: rest)).
    apply splits_token; auto; try reflexivity.
    apply splits_delim; [reflexivity|]. now apply IH.
Qed.

(** ** The dispatcher *)

Lemma builtin_loop_cases (E : os) (args : argv) (name : cstring) (w : world) :
  builtin_loop E tash_num_builtins 0 args name w =
  if strcmp name (cs "cd") =? 0 then cd E args w
  else if strcmp name (cs "help") =? 0 then help args w
  else if strcmp name (cs "exit") =? 0 then exit (int_of_ptr (argv_ptr args)) w
  else tash_launch E args w.
Proof.
  cbn [builtin_loop tash_num_builtins builtin_str length].
  change (builtin_str !! 0%nat) with (Some (cs "cd")).
  change (builtin_str !! 1%nat) with (Some (cs "help")).
  change (builtin_str !! 2%nat) with (Some (cs "exit")).
  change (builtin_func E !! 0%nat) with (Some (cd E)).
  change (builtin_func E !! 1%nat) with (Some help).
  change (builtin_func E !! 2%nat)
    with (Some (fun a : argv => exit (int_of_ptr (argv_ptr a)))).
  cbv beta iota.
  destruct (strcmp name (cs "cd") =? 0); [reflexivity|].
  destruct (strcmp name (cs "help") =? 0); [reflexivity|].
  destruct (strcmp name (cs "exit") =? 0); reflexivity.
Qed.

Lemma tash_execute_cases (E : os) (p : Z) (name : cstring) rest (w : world) :
  tash_execute E (Argv p (name :: rest)) w =
  let args := Argv p (name :: rest) in
  let w' := add_stdout (colour "33") w in
  if strcmp name (cs "cd") =? 0 then cd E args w'
  else if strcmp name (cs "help") =? 0 then help args w'
  else if strcmp name (cs "exit") =? 0 then exit (int_of_ptr p) w'
  else tash_launch E args w'.
Proof.
  unfold tash_execute. erewrite bind_returns by reflexivity.
  cbn [argv_toks]. apply builtin_loop_cases.
Qed.

(** [cd] comes back with [Continue] whatever [chdir] says. *)
Lemma cd_returns (E : os) (p : Z) (name : cstring) rest (w : world) :
  exists w', cd E (Argv p (name :: rest)) w = Returns Continue w'.
Proof.
  unfold cd. cbn [argv_toks]. destruct rest as [|path extra].
  - eexists. reflexivity.
  - unfold chdir, bind. destruct (os_chdir E (w_cwd w) path); eexists; reflexivity.
Qed.

Lemma help_returns (args : argv) (w : world) :
  exists w', help args w = Returns Continue w'.
Proof. eexists. reflexivity. Qed.

Lemma set_errno_same (w : world) : set_errno (w_errno w) w = w.
Proof. now destruct w. Qed.

(** The [do ... while] ends after the first call that leaves in [status]
    a value that says the child is gone, and does not end when there is
    none; all it does to the state is what failing calls do to [errno]. *)
Lemma wait_loop_cases (answers : list (sysres wstatus)) :
  forall (status : wstatus) (w : world),
    wait_loop status answers w =
    if wait_ends status answers
    then Returns tt (set_errno (wait_errno status answers (w_errno w)) w)
    else Blocks (set_errno (wait_errno status answers (w_errno w)) w).
Proof.
  induction answers as [|answer later IH]; intros status w.
  - cbn. now rewrite set_errno_same.
  - cbn [wait_loop wait_ends wait_errno]. unfold bind, waitpid.
    destruct answer as [s|e]; cbn [status_after].
    + unfold gone. rewrite <- negb_orb.
      destruct (WIFEXITED s || WIFSIGNALED s); cbn [negb orb].
      * unfold ret. now rewrite set_errno_same.
      * apply IH.
    + unfold gone. rewrite <- negb_orb.
      destruct (WIFEXITED status || WIFSIGNALED status); cbn [negb orb].
      * reflexivity.
      * apply (IH status (set_errno e w)).
Qed.

(** The three ways [tash_launch] can go. *)
Lemma tash_launch_fork_fails (E : os) (args : argv) (w : world) e :
  os_fork E (w_forks w) = Err e ->
  tash_launch E args w
  = Returns Continue (add_stderr (Perror "tash" e) (set_errno e (count_fork w))).
Proof.
  intros H. unfold tash_launch.
  erewrite bind_returns by (unfold fork; rewrite H; reflexivity).
  reflexivity.
Qed.

Lemma tash_launch_parent (E : os) (args : argv) (w : world) pid :
  os_fork E (w_forks w) = Ok pid -> 0 < pid ->
  tash_launch E args w
  = if wait_ends (os_stack E) (os_wait E pid)
    then Returns Continue
           (set_errno (wait_errno (os_stack E) (os_wait E pid) (w_errno w))
              (count_fork w))
    else Blocks
           (set_errno (wait_errno (os_stack E) (os_wait E pid) (w_errno w))
              (count_fork w)).
Proof.
  intros H Hpid. unfold tash_launch.
  erewrite bind_returns by (unfold fork; rewrite H; reflexivity).
  replace (pid =? 0) with false by (symmetry; apply Z.eqb_neq; lia).
  replace (pid <? 0) with false by (symmetry; apply Z.ltb_ge; lia).
  unfold bind at 1. rewrite wait_loop_cases.
  destruct (wait_ends (os_stack E) (os_wait E pid)); reflexivity.
Qed.

Lemma tash_launch_child (E : os) (p : Z) (file : cstring) rest (w : world) :
  os_fork E (w_forks w) = Ok 0 ->
  tash_launch E (Argv p (file :: rest)) w
  = match os_execvp E file (file :: rest) with
    | None => Execs file (file :: rest) (count_fork w)
    | Some e => Returns Continue
                  (add_stderr (Perror "tash" e) (set_errno e (count_fork w)))
    end.
Proof.
  intros H. unfold tash_launch.
  erewrite bind_returns by (unfold fork; rewrite H; reflexivity).
  cbn [Z.eqb argv_toks]. unfold execvp, bind.
  destruct (os_execvp E file (file :: rest)); reflexivity.
Qed.

Lemma tash_launch_negative_pid (E : os) (args : argv) (w : world) pid :
  os_fork E (w_forks w) = Ok pid -> pid < 0 ->
  exists w', tash_launch E args w = Returns Continue w'.
Proof.
  intros H Hpid. unfold tash_launch.
  erewrite bind_returns by (unfold fork; rewrite H; reflexivity).
  replace (pid =? 0) with false by (symmetry; apply Z.eqb_neq; lia).
  replace (pid <? 0) with true by (symmetry; apply Z.ltb_lt; lia).
  eexists. reflexivity.
Qed.

Lemma tash_launch_fate (E : os) (p : Z) (file : cstring) rest (w : world) :
  match tash_launch E (Argv p (file :: rest)) w with
  | Returns status _ => status = Continue
  | Execs _ _ _ => os_fork E (w_forks w) = Ok 0
  | Blocks _ =>
      exists pid, os_fork E (w_forks w) = Ok pid /\ 0 < pid
                  /\ wait_ends (os_stack E) (os_wait E pid) = false
  | _ => False
  end.
Proof.
  destruct (os_fork E (w_forks w)) as [pid|e] eqn:Hfork.
  - destruct (Z.lt_trichotomy pid 0) as [Hneg|[->|Hpos]].
    + destruct (tash_launch_negative_pid E (Argv p (file :: rest)) w pid Hfork Hneg)
        as [w' ->]. reflexivity.
    + rewrite (tash_launch_child E p file rest w Hfork).
      destruct (os_execvp E file (file :: rest)); reflexivity.
    + rewrite (tash_launch_parent E _ w pid Hfork Hpos).
      destruct (wait_ends (os_stack E) (os_wait E pid)) eqn:Hwait; [reflexivity|].
      now exists pid.
  - rewrite (tash_launch_fork_fails E _ w e Hfork). reflexivity.
Qed.

(** What becomes of a command that is not [exit]. *)
Lemma dispatch_fate (E : os) (args : argv) (w : world) :
  first_token args <> Some (cs "exit") ->
  match tash_execute E args w with
  | Returns status _ => status = Continue
  | Execs _ _ _ =>
      runs_in_process args = false /\ os_fork E (w_forks w) = Ok 0
  | Blocks _ =>
      runs_in_process args = false
      /\ exists pid, os_fork E (w_forks w) = Ok pid /\ 0 < pid
                     /\ wait_ends (os_stack E) (os_wait E pid) = false
  | _ => False
  end.
Proof.
  destruct args as [p [|name rest]]; intros Hname; [reflexivity|].
  rewrite tash_execute_cases. cbv zeta.
  destruct (strcmp name (cs "cd") =? 0) eqn:Hcd.
  { destruct (cd_returns E p name rest (add_stdout (colour "33") w)) as [w' ->].
    reflexivity. }
  destruct (strcmp name (cs "help") =? 0) eqn:Hhelp.
  { reflexivity. }
  destruct (strcmp name (cs "exit") =? 0) eqn:Hexit.
  { exfalso. apply Hname. unfold first_token. cbn.
    f_equal. apply Z.eqb_eq in Hexit. now apply strcmp_eq in Hexit. }
  assert (runs_in_process (Argv p (name :: rest)) = false) as Hrun.
  { unfold runs_in_process. cbn [argv_toks builtin_str existsb].
    now rewrite Hcd, Hhelp, Hexit. }
  pose proof (tash_launch_fate E p name rest (add_stdout (colour "33") w)) as H.
  destruct (tash_launch E (Argv p (name :: rest)) (add_stdout (colour "33") w));
    auto.
Qed.

Lemma dispatch_exit (E : os) (p : Z) (name : cstring) rest (w : world) :
  c_str name = cs "exit" ->
  tash_execute E (Argv p (name :: rest)) w
  = Exits (int_of_ptr p) (add_stdout (colour "33") w).
Proof.
  intros Hname. rewrite tash_execute_cases. cbv zeta.
  rewrite (strcmp_neq name (cs "cd")) by (rewrite Hname; discriminate).
  rewrite (strcmp_neq name (cs "help")) by (rewrite Hname; discriminate).
  rewrite (strcmp_same name (cs "exit")) by (rewrite Hname; reflexivity).
  reflexivity.
Qed.

(** No command hands [Terminate] to the loop. *)
Lemma dispatch_never_terminate (E : os) (args : argv) (w : world) status w' :
  tash_execute E args w = Returns status w' -> status = Continue.
Proof.
  intros H.
  assert (first_token args = Some (cs "exit")
          \/ first_token args <> Some (cs "exit")) as [Hexit|Hother].
  { destruct args as [p [|name rest]]; [right; discriminate|].
    destruct (List.list_eq_dec ascii_dec (c_str name) (cs "exit")) as [Heq|Hne].
    - left. unfold first_token. cbn [argv_toks head option_map]. now f_equal.
    - right. unfold first_token. intros [= Heq]. now apply Hne. }
  - destruct args as [p [|name rest]]; [discriminate|].
    injection Hexit as Hexit.
    rewrite (dispatch_exit E p name rest w Hexit) in H. discriminate.
  - pose proof (dispatch_fate E args w Hother) as Hfate.
    now rewrite H in Hfate.
Qed.

Lemma bind_inv_returns {A B} (m : M A) (k : A -> M B) w b w'' :
  bind m k w = Returns b w'' ->
  exists a w', m w = Returns a w' /\ k a w' = Returns b w''.
Proof.
  unfold bind. destruct (m w) as [a w'| | | | |]; try discriminate.
  intros H. now exists a, w'.
Qed.

(** The [do ... while] has no way out: [tash_loop] does not return. *)
Lemma tash_loop_never_returns (E : os) (fuel : nat) (w : world) :
  returned (tash_loop E fuel w) = None.
Proof.
  revert w; induction fuel as [|fuel IH]; intros w; [reflexivity|].
  destruct (tash_loop E (S fuel) w) as [u w'| | | | |] eqn:Hloop;
    try reflexivity.
  exfalso. cbn [tash_loop] in Hloop.
  do 8 (apply bind_inv_returns in Hloop as (? & ? & _ & Hloop)).
  apply bind_inv_returns in Hloop as (status & w1 & Hexec & Hloop).
  apply dispatch_never_terminate in Hexec. subst status.
  cbn in Hloop. specialize (IH w1). rewrite Hloop in IH. discriminate.
Qed.

Lemma main_never_returns (E : os) (fuel : nat) (w : world) :
  returned (main E fuel w) = None.
Proof.
  unfold main, bind. pose proof (tash_loop_never_returns E fuel w) as H.
  destruct (tash_loop E fuel w); try reflexivity. discriminate.
Qed.

(** ** End of input *)

Lemma bind_out_of_fuel {A B} (m : M A) (k : A -> M B) w :
  m w = OutOfFuel -> bind m k w = OutOfFuel.
Proof. unfold bind. now intros ->. Qed.

Lemma read_advance_eof (E : os) buffer (position bufsize : Z) (w : world) :
  w_stdin w = [] ->
  0 <= position < bufsize -> bufsize <= position + tash_RL_BUFSIZE ->
  position + 2 * tash_RL_BUFSIZE <= INT_MAX ->
  exists buffer' bufsize' w',
    read_advance E buffer position bufsize w
    = Returns (buffer', position + 1, bufsize') w'
    /\ w_stdin w' = []
    /\ position + 1 < bufsize' <= position + 1 + tash_RL_BUFSIZE.
Proof.
  intros Heof Hpos Hbuf Hmax. unfold read_advance.
  erewrite bind_returns
    by (apply int_add_in_range; unfold INT_MAX, tash_RL_BUFSIZE in *; lia).
  destruct (position + 1 >=? bufsize) eqn:Hge.
  - apply Z.geb_le in Hge.
    erewrite bind_returns
      by (apply int_add_in_range; unfold INT_MAX, tash_RL_BUFSIZE in *; lia).
    unfold realloc_chars, allocate, bind.
    destruct (os_heap E (w_allocs w)); do 3 eexists;
      (split; [reflexivity|split; [exact Heof|unfold tash_RL_BUFSIZE in *; lia]]).
  - rewrite Z.geb_leb in Hge. apply Z.leb_gt in Hge.
    do 3 eexists.
    split; [reflexivity|split; [exact Heof|unfold tash_RL_BUFSIZE in *; lia]].
Qed.

(** At end-of-input every round of [while (1)] leads to the next. *)
Lemma read_loop_spins (E : os) (fuel : nat) :
  forall buffer position bufsize w,
    w_stdin w = [] ->
    0 <= position < bufsize -> bufsize <= position + tash_RL_BUFSIZE ->
    position + Z.of_nat fuel + 2 * tash_RL_BUFSIZE <= INT_MAX + 1 ->
    read_loop E fuel buffer position bufsize w = OutOfFuel.
Proof.
  induction fuel as [|fuel IH]; intros buffer position bufsize w Heof Hpos Hbuf Hmax;
    [reflexivity|].
  cbn [read_loop].
  erewrite bind_returns by (unfold getchar; rewrite Heof; reflexivity).
  change (EOF =? EOF) with true. cbv iota.
  erewrite bind_returns by reflexivity.
  destruct (read_advance_eof E buffer position bufsize w Heof Hpos Hbuf)
    as (buffer' & bufsize' & w' & Hadv & Heof' & Hbuf'); [lia|].
  erewrite bind_returns by exact Hadv.
  apply IH; auto; lia.
Qed.

Lemma malloc_chars_cases (E : os) (n : Z) (w : world) :
  malloc_chars E n w =
  match os_heap E (w_allocs w) with
  | Some _ => Returns (Some (junk E 0 (Z.to_nat n))) (count_alloc w)
  | None => Returns None (set_errno ENOMEM (count_alloc w))
  end.
Proof.
  unfold malloc_chars, allocate, bind, ret.
  destruct (os_heap E (w_allocs w)); reflexivity.
Qed.

Lemma tash_read_line_eof (E : os) (fuel : nat) (w : world) :
  w_stdin w = [] ->
  Z.of_nat fuel <= INT_MAX - 2 * tash_RL_BUFSIZE ->
  tash_read_line E fuel w = OutOfFuel.
Proof.
  intros Heof Hfuel. unfold tash_read_line.
  destruct (os_heap E (w_allocs w)) eqn:Hheap.
  - erewrite bind_returns by (rewrite malloc_chars_cases, Hheap; reflexivity).
    erewrite bind_returns by reflexivity.
    apply read_loop_spins; auto; unfold tash_RL_BUFSIZE in *; lia.
  - erewrite bind_returns by (rewrite malloc_chars_cases, Hheap; reflexivity).
    erewrite bind_returns by reflexivity.
    apply read_loop_spins; auto; unfold tash_RL_BUFSIZE in *; lia.
Qed.

Lemma tash_loop_eof (E : os) (fuel : nat) (w : world) :
  w_stdin w = [] ->
  Z.of_nat fuel <= INT_MAX - 2 * tash_RL_BUFSIZE ->
  tash_loop E fuel w = OutOfFuel.
Proof.
  intros Heof Hfuel. destruct fuel as [|fuel]; [reflexivity|].
  cbn [tash_loop].
  do 5 (erewrite bind_returns by reflexivity).
  apply bind_out_of_fuel. now apply tash_read_line_eof.
Qed.

(** ** Who can end the process *)

(** Only libc's [exit] does, and neither the reader nor the tokenizer
    calls it.  The lemmas go into a hint database, one for each piece of
    the C library the two functions use. *)

Create HintDb tash discriminated.

Lemma never_exits_ret {A} (a : A) : never_exits (ret a).
Proof. intros w. reflexivity. Qed.

Lemma never_exits_undefined {A} : never_exits (@undefined A).
Proof. intros w. reflexivity. Qed.

Lemma never_exits_out_of_fuel {A} : never_exits (fun _ => @OutOfFuel A).
Proof. intros w. reflexivity. Qed.

Lemma never_exits_bind {A B} (m : M A) (k : A -> M B) :
  never_exits m -> (forall a, never_exits (k a)) -> never_exits (bind m k).
Proof.
  intros Hm Hk w. unfold bind. specialize (Hm w).
  destruct (m w); try reflexivity; try discriminate. apply Hk.
Qed.

Lemma never_exits_printf s : never_exits (printf s).
Proof. intros w. reflexivity. Qed.

Lemma never_exits_fprintf_stderr s : never_exits (fprintf_stderr s).
Proof. intros w. reflexivity. Qed.

Lemma never_exits_getchar : never_exits getchar.
Proof. intros w. unfold getchar. destruct (w_stdin w); reflexivity. Qed.

Lemma never_exits_allocate E : never_exits (allocate E).
Proof. intros w. unfold allocate. destruct (os_heap E (w_allocs w)); reflexivity. Qed.

Lemma never_exits_int_add a b : never_exits (int_add a b).
Proof.
  intros w. unfold int_add.
  destruct ((a + b <=? INT_MAX) && (- INT_MAX - 1 <=? a + b)); reflexivity.
Qed.

Lemma never_exits_store_char buffer i c : never_exits (store_char buffer i c).
Proof.
  intros w. unfold store_char. destruct buffer as [cells|]; [|reflexivity].
  destruct ((0 <=? i) && (i <? Z.of_nat (length cells))); reflexivity.
Qed.

Lemma never_exits_store_ptr tokens t : never_exits (store_ptr tokens t).
Proof. intros w. destruct tokens; reflexivity. Qed.

Lemma never_exits_strtok str delim : never_exits (strtok str delim).
Proof.
  intros w. unfold strtok.
  destruct (skip_delims delim _) as [|c r]; [reflexivity|].
  destruct (scan_token delim (c :: r)). reflexivity.
Qed.

Lemma never_exits_tash_exit args : never_exits (tash_exit args).
Proof. intros w. reflexivity. Qed.

#[local] Hint Resolve never_exits_ret never_exits_undefined
  never_exits_out_of_fuel never_exits_printf never_exits_fprintf_stderr
  never_exits_getchar never_exits_allocate never_exits_int_add
  never_exits_store_char never_exits_store_ptr never_exits_strtok
  never_exits_tash_exit : tash.

Ltac quiet :=
  repeat first
    [ apply never_exits_bind; [|intros ?]
    | solve [auto with tash]
    | match goal with
      | |- never_exits (if ?b then _ else _) => destruct b
      | |- never_exits (match ?x with _ => _ end) => destruct x
      end ].

Lemma never_exits_malloc_chars E n : never_exits (malloc_chars E n).
Proof. unfold malloc_chars. quiet. Qed.

Lemma never_exits_realloc_chars E old n : never_exits (realloc_chars E old n).
Proof. unfold realloc_chars. quiet. Qed.

Lemma never_exits_malloc_ptrs E : never_exits (malloc_ptrs E).
Proof. unfold malloc_ptrs. quiet. Qed.

Lemma never_exits_realloc_ptrs E old : never_exits (realloc_ptrs E old).
Proof. unfold realloc_ptrs. quiet. Qed.

#[local] Hint Resolve never_exits_malloc_chars never_exits_realloc_chars
  never_exits_malloc_ptrs never_exits_realloc_ptrs : tash.

Lemma never_exits_read_advance E buffer position bufsize :
  never_exits (read_advance E buffer position bufsize).
Proof. unfold read_advance. quiet. Qed.

#[local] Hint Resolve never_exits_read_advance : tash.

Lemma never_exits_read_loop E fuel :
  forall buffer position bufsize,
    never_exits (read_loop E fuel buffer position bufsize).
Proof.
  induction fuel as [|fuel IH]; intros buffer position bufsize;
    cbn [read_loop]; quiet.
Qed.

Lemma never_exits_tash_read_line E fuel : never_exits (tash_read_line E fuel).
Proof.
  unfold tash_read_line. pose proof (never_exits_read_loop E fuel). quiet.
Qed.

Lemma never_exits_split_loop E fuel :
  forall token tokens position bufsize,
    never_exits (split_loop E fuel token tokens position bufsize).
Proof.
  induction fuel as [|fuel IH]; intros [t|] tokens position bufsize;
    cbn [split_loop]; quiet.
Qed.

Lemma never_exits_tash_split_line E line : never_exits (tash_split_line E line).
Proof.
  unfold tash_split_line. pose proof (never_exits_split_loop E (S (length line))).
  quiet.
Qed.

Lemma only_delims_no_token (s : cstring) :
  forallb is_delim s = true -> tokens_of s = [].
Proof.
  intros H. apply (splits_unique s); [apply tokens_of_splits|].
  rewrite <- (app_nil_r s). apply splits_delims; [exact H|constructor].
Qed.

(** ** The model on some runs *)

Example read_short_line :
  option_map c_str (returned (tash_read_line os_plain 8 (start (cs "ls -l" ++ [LF]))))
  = Some (cs "ls -l").
Proof. vm_compute. reflexivity. Qed.

Example read_long_line :
  option_map c_str (returned (tash_read_line os_plain 2000 (start input_1024)))
  = Some (repeat "a"%char 1024).
Proof. vm_compute. reflexivity. Qed.

Example split_64_tokens :
  option_map argv_toks (returned (tash_split_line os_plain line_64 (start [])))
  = Some (repeat (cs "a") 64).
Proof. vm_compute. reflexivity. Qed.

Example run_cd_then_help :
  option_map w_cwd
    (final_world (main os_plain 20 (start (cs "cd /tmp" ++ [LF] ++ cs "help" ++ [LF]
                                            ++ cs "exit now" ++ [LF]))))
  = Some (cs "/tmp").
Proof. vm_compute. reflexivity. Qed.

Example run_unknown_program :
  tash_execute os_plain (Argv 0 [cs "not_a_real_program_xyz"]) (start [])
  = Returns Continue (count_fork (add_stdout (colour "33") (start []))).
Proof. vm_compute. reflexivity. Qed.

(** A colour code on the output does not show once the colours are left
    out. *)
Lemma uncoloured_colour (c : string) (w : world) :
  is_colour_code c = true -> uncoloured (add_stdout c w) = uncoloured w.
Proof.
  intros Hc. unfold uncoloured, add_stdout.
  cbn [w_stdin w_stdout w_stderr w_cwd w_errno w_strtok w_allocs w_forks].
  rewrite List.filter_app. cbn [List.filter]. rewrite Hc. cbn [negb].
  now rewrite app_nil_r.
Qed.

(** [waitpid] fails at once (ECHILD) and the stack happened to hold a
    value that says "exited": the parent leaves the loop without any
    report of the child. *)
Example wait_fails_at_once :
  tash_execute
    (Os (os_heap os_plain) (os_junk os_plain) (os_chdir os_plain)
        (os_fork os_plain) (os_execvp os_plain) (fun _ => [Err 10]) (WExited 0))
    (Argv 0 [cs "ls"]) (start [])
  = Returns Continue (set_errno 10 (count_fork (add_stdout (colour "33") (start [])))).
Proof. vm_compute. reflexivity. Qed.

(** The same with a value on the stack that says nothing of the kind: the
    parent stays in the loop. *)
Example wait_fails_and_spins :
  tash_execute
    (Os (os_heap os_plain) (os_junk os_plain) (os_chdir os_plain)
        (os_fork os_plain) (os_execvp os_plain) (fun _ => [Err 10]) (WOther 21845))
    (Argv 0 [cs "ls"]) (start [])
  = Blocks (set_errno 10 (count_fork (add_stdout (colour "33") (start [])))).
Proof. vm_compute. reflexivity. Qed.

(** * The claims *)

(** C1.  The claim: at end-of-input the Line Reader signals termination
    of the whole program, and end-of-input on the first read stops the
    loop at once.  The code calls [tash_exit (EXIT_SUCCESS)], which is the
    builtin that returns 0 and not libc's [exit], and goes on with the
    next round of [while (1)].  Proved here: with standard input at its
    end, after any number [fuel] of rounds that [int] can count the reader
    has neither returned nor ended the process, and so has [main]; and for
    every [fuel] the reader does not end the process and [main] does not
    return. *)
Theorem end_of_input_keeps_reading (E : os) (fuel : nat) (w : world) :
  Z.of_nat fuel <= INT_MAX - 2 * tash_RL_BUFSIZE ->
  tash_read_line E fuel (set_stdin [] w) = OutOfFuel
  /\ main E fuel (set_stdin [] w) = OutOfFuel
  /\ (forall n, process_ended (tash_read_line E n (set_stdin [] w)) = false)
  /\ (forall n, returned (main E n (set_stdin [] w)) = None).
Proof.
  intros Hfuel. split; [|split; [|split]].
  - now apply tash_read_line_eof.
  - unfold main. apply bind_out_of_fuel. now apply tash_loop_eof.
  - intros n. apply never_exits_tash_read_line.
  - intros n. apply main_never_returns.
Qed.

Lemma end_of_input_keeps_reading_witness :
  Z.of_nat 3000 <= INT_MAX - 2 * tash_RL_BUFSIZE
  /\ tash_read_line os_plain 3000 (set_stdin [] (start [])) = OutOfFuel
  /\ main os_plain 3000 (set_stdin [] (start [])) = OutOfFuel
  /\ (forall n, process_ended
                  (tash_read_line os_plain n (set_stdin [] (start []))) = false)
  /\ (forall n, returned (main os_plain n (set_stdin [] (start []))) = None).
Proof.
  split; [vm_compute; discriminate|].
  apply (end_of_input_keeps_reading os_plain 3000 (start [])).
  vm_compute; discriminate.
Defined.

(** C2.  The claim: dispatching [exit] yields Terminate to the loop and
    the interpreter then exits with a success status.  The table entry for
    ["exit"] is libc's [exit], so the dispatcher does not come back to the
    loop: the process ends inside the call, with the pointer [args] read as
    the status.  Proved here: that equation for every argument vector that
    starts with ["exit"]; that [main] never gets to its
    [return EXIT_SUCCESS]; and a run on the line [exit] whose parent sees
    status 176. *)
Theorem exit_builtin_is_libc_exit (E : os) (p : Z) (extra : list cstring)
        (w : world) :
  tash_execute E (Argv p (cs "exit" :: extra)) w
  = Exits (int_of_ptr p) (add_stdout (colour "33") w)
  /\ (forall fuel, returned (main E fuel w) = None)
  /\ exited (main os_plain 30 (start (cs "exit" ++ [LF]))) = Some 1431671472
  /\ wait_status_of 1431671472 = 176.
Proof.
  split; [|split; [|split]].
  - now apply dispatch_exit.
  - intros fuel. apply main_never_returns.
  - vm_compute. reflexivity.
  - reflexivity.
Qed.

(** C3.  The claim: when an allocation fails the process terminates at
    once with a diagnostic, and execution never goes on.  The code prints
    the diagnostic and calls [tash_exit (EXIT_FAILURE)], which returns, so
    execution goes on with the NULL pointer.  Proved here: neither the
    reader nor the tokenizer ever ends the process, whatever the
    allocator answers; and four runs in which a [malloc] or a [realloc]
    fails, the diagnostic is on [stderr], and the next store goes through
    NULL. *)
Theorem allocation_failure_goes_on :
  (forall E fuel w, process_ended (tash_read_line E fuel w) = false)
  /\ (forall E line w, process_ended (tash_split_line E line w) = false)
  /\ tash_read_line os_no_memory 8 (start (cs "ls" ++ [LF]))
     = Undefined (set_stdin (cs "s" ++ [LF])
                    (add_stderr (Message allocation_error)
                       (set_errno ENOMEM (count_alloc (start [])))))
  /\ tash_split_line os_no_memory (cs "ls") (start [])
     = Undefined (add_stderr (Message allocation_error)
                    (set_errno ENOMEM (count_alloc (start []))))
  /\ tash_read_line os_one_block 2000 (start input_1024)
     = Undefined (add_stderr (Message allocation_error)
                    (set_errno ENOMEM (count_alloc (count_alloc (start [])))))
  /\ tash_split_line os_one_block line_64 (start [])
     = Undefined (add_stderr (Message allocation_error)
                    (set_errno ENOMEM (count_alloc (count_alloc (start []))))).
Proof.
  split; [|split; [|split; [|split; [|split]]]].
  - intros E fuel w. apply never_exits_tash_read_line.
  - intros E line w. apply never_exits_tash_split_line.
  - vm_compute. reflexivity.
  - vm_compute. reflexivity.
  - vm_compute. reflexivity.
  - vm_compute. reflexivity.
Qed.

(** C4.  The claim: when [execvp] fails the child reports the error and
    terminates at once with a failure status.  The child reports the
    error, calls [tash_exit (EXIT_FAILURE)], which returns, and leaves
    [tash_launch] with [Continue] like the parent does.  Proved here: that
    outcome of [tash_launch] in a forked child whose [execvp] fails; and a
    run in which such a child goes on to read the next line, [exit], from
    the input it shares with its parent. *)
Theorem failed_exec_child_returns (E : os) (p : Z) (file : cstring)
        (rest : list cstring) (w : world) (e : Z) :
  os_fork E (w_forks w) = Ok 0 ->
  os_execvp E file (file :: rest) = Some e ->
  tash_launch E (Argv p (file :: rest)) w
  = Returns Continue (add_stderr (Perror "tash" e) (set_errno e (count_fork w)))
  /\ exited (main os_child 40
               (start (cs "not_a_real_program_xyz" ++ [LF] ++ cs "exit" ++ [LF])))
     = Some 1431671504.
Proof.
  intros Hfork Hexec. split.
  - rewrite (tash_launch_child E p file rest w Hfork), Hexec. reflexivity.
  - vm_compute. reflexivity.
Qed.

Lemma failed_exec_child_returns_witness :
  os_fork os_child (w_forks (start [])) = Ok 0
  /\ os_execvp os_child (cs "not_a_real_program_xyz")
       [cs "not_a_real_program_xyz"] = Some 2
  /\ tash_launch os_child (Argv 0 [cs "not_a_real_program_xyz"]) (start [])
     = Returns Continue
         (add_stderr (Perror "tash" 2) (set_errno 2 (count_fork (start []))))
  /\ exited (main os_child 40
               (start (cs "not_a_real_program_xyz" ++ [LF] ++ cs "exit" ++ [LF])))
     = Some 1431671504.
Proof.
  split; [reflexivity|]. split; [reflexivity|].
  apply (failed_exec_child_returns os_child 0 (cs "not_a_real_program_xyz") []
           (start []) 2); reflexivity.
Defined.

(** The delimiters are the five characters of [tash_TOK_DELIM]. *)
Lemma is_delim_spec (c : ascii) :
  is_delim c = true <-> In c [SPC; TAB; CR; LF; BEL].
Proof.
  unfold is_delim, in_set, tash_TOK_DELIM. rewrite existsb_exists. split.
  - intros (x & Hx & Heq). apply Ascii.eqb_eq in Heq. now subst x.
  - intros H. exists c. split; [exact H|apply Ascii.eqb_refl].
Qed.

(** C5.  Whenever the allocator gives the tokenizer its array and the
    line is short enough for [int] to count its tokens, [tash_split_line]
    returns exactly the maximal runs of non-delimiters of the line, in
    order: the vector [toks] it returns satisfies [splits], and no other
    vector does.  In particular the line [echo  a   b<TAB>c<LF>] gives
    ["echo"; "a"; "b"; "c"], and a line of delimiters alone gives a vector
    of length zero.  (The line is the C string held in [line]; what the
    tokenizer does when the allocator fails is C3.) *)
Theorem tokenizer_maximal_runs (E : os) (line : list ascii) (w : world) :
  heap_gives_from E (w_allocs w) ->
  Z.of_nat (length line) <= INT_MAX - tash_TOK_BUFSIZE ->
  exists p w' toks,
    tash_split_line E line w = Returns (Argv p toks) w'
    /\ splits (c_str line) toks
    /\ (forall toks', splits (c_str line) toks' -> toks' = toks)
    /\ (line = line_echo -> toks = [cs "echo"; cs "a"; cs "b"; cs "c"])
    /\ (forallb is_delim (c_str line) = true -> length toks = 0%nat)
    /\ (forall c, is_delim c = true <-> In c [SPC; TAB; CR; LF; BEL]).
Proof.
  intros Hheap Hlen.
  destruct (tash_split_line_gives E line w Hheap Hlen) as (p & w' & Hrun).
  exists p, w', (tokens_of (c_str line)).
  split; [exact Hrun|]. split; [apply tokens_of_splits|].
  split; [|split; [|split]].
  - intros toks' H. eapply splits_unique; [exact H|apply tokens_of_splits].
  - intros ->. vm_compute. reflexivity.
  - intros H. now rewrite only_delims_no_token.
  - apply is_delim_spec.
Qed.

Lemma tokenizer_maximal_runs_witness :
  heap_gives_from os_plain (w_allocs (start []))
  /\ Z.of_nat (length line_echo) <= INT_MAX - tash_TOK_BUFSIZE
  /\ exists p w' toks,
      tash_split_line os_plain line_echo (start []) = Returns (Argv p toks) w'
      /\ splits (c_str line_echo) toks
      /\ (forall toks', splits (c_str line_echo) toks' -> toks' = toks)
      /\ (line_echo = line_echo -> toks = [cs "echo"; cs "a"; cs "b"; cs "c"])
      /\ (forallb is_delim (c_str line_echo) = true -> length toks = 0%nat)
      /\ (forall c, is_delim c = true <-> In c [SPC; TAB; CR; LF; BEL]).
Proof.
  split; [intros k _; discriminate|].
  split; [vm_compute; discriminate|].
  apply (tokenizer_maximal_runs os_plain line_echo (start []));
    [intros k _; discriminate|vm_compute; discriminate].
Defined.

(** C6.  [cd] with no path argument writes the usage message to [stderr]
    and leaves the working directory as it is; with a path that [chdir]
    refuses it reports the [errno] of [chdir] through [perror] and leaves
    the working directory as it is; with a path that [chdir] accepts the
    working directory becomes that directory.  It returns [Continue] in
    all three cases, and so does the dispatcher when the first token is
    ["cd"]. *)
Theorem cd_reports_or_changes_directory (E : os) (p : Z) (name path : cstring)
        (extra : list cstring) (w : world) :
  (cd E (Argv p [name]) w = Returns Continue (add_stderr (Message usage_cd) w)
   /\ w_cwd (add_stderr (Message usage_cd) w) = w_cwd w)
  /\ match os_chdir E (w_cwd w) path with
     | Err e =>
         cd E (Argv p (name :: path :: extra)) w
         = Returns Continue (add_stderr (Perror "tash" e) (set_errno e w))
         /\ w_cwd (add_stderr (Perror "tash" e) (set_errno e w)) = w_cwd w
     | Ok d =>
         cd E (Argv p (name :: path :: extra)) w = Returns Continue (set_cwd d w)
         /\ w_cwd (set_cwd d w) = d
         /\ w_stderr (set_cwd d w) = w_stderr w
     end
  /\ (forall rest,
        tash_execute E (Argv p (cs "cd" :: rest)) w
        = cd E (Argv p (cs "cd" :: rest)) (add_stdout (colour "33") w)).
Proof.
  split; [split; reflexivity|]. split.
  - unfold cd, chdir, bind. cbn [argv_toks].
    destruct (os_chdir E (w_cwd w) path); repeat split.
  - intros rest. rewrite tash_execute_cases. reflexivity.
Qed.

(** C7.  For the empty argument vector the dispatcher returns
    [Continue] with no side effect: it runs no builtin and launches no
    process.  The state afterwards is the state before with the colour
    sequence [ESC [0;33m] on the terminal, so with the colours left out
    it is the state before: the same directory, the same [stderr], the
    same text on standard output, and no fork.  So it is for every line
    of white space alone that the tokenizer is given. *)
Theorem empty_command_is_no_op (E : os) (p : Z) (w : world) :
  (tash_execute E (Argv p []) w = Returns Continue (add_stdout (colour "33") w)
   /\ uncoloured (add_stdout (colour "33") w) = uncoloured w
   /\ w_forks (add_stdout (colour "33") w) = w_forks w)
  /\ (forall line,
        heap_gives_from E (w_allocs w) ->
        Z.of_nat (length line) <= INT_MAX - tash_TOK_BUFSIZE ->
        forallb is_delim (c_str line) = true ->
        exists q w1,
          tash_split_line E line w = Returns (Argv q []) w1
          /\ tash_execute E (Argv q []) w1
             = Returns Continue (add_stdout (colour "33") w1)
          /\ uncoloured (add_stdout (colour "33") w1) = uncoloured w1
          /\ w_forks (add_stdout (colour "33") w1) = w_forks w1).
Proof.
  split.
  - split; [reflexivity|]. split; [now apply uncoloured_colour|reflexivity].
  - intros line Hheap Hlen Hdelims.
    destruct (tash_split_line_gives E line w Hheap Hlen) as (q & w1 & Hrun).
    rewrite (only_delims_no_token _ Hdelims) in Hrun.
    exists q, w1. split; [exact Hrun|]. split; [reflexivity|].
    split; [now apply uncoloured_colour|reflexivity].
Qed.

Lemma empty_command_is_no_op_witness :
  (tash_execute os_plain (Argv 0 []) (start [])
   = Returns Continue (add_stdout (colour "33") (start []))
   /\ uncoloured (add_stdout (colour "33") (start [])) = uncoloured (start [])
   /\ w_forks (add_stdout (colour "33") (start [])) = w_forks (start []))
  /\ exists q w1,
      tash_split_line os_plain [SPC; TAB; LF] (start []) = Returns (Argv q []) w1
      /\ tash_execute os_plain (Argv q []) w1
         = Returns Continue (add_stdout (colour "33") w1)
      /\ uncoloured (add_stdout (colour "33") w1) = uncoloured w1
      /\ w_forks (add_stdout (colour "33") w1) = w_forks w1.
Proof.
  destruct (empty_command_is_no_op os_plain 0 (start [])) as [H0 H1].
  split; [exact H0|].
  apply (H1 [SPC; TAB; LF]);
    [intros k _; discriminate|vm_compute; discriminate|reflexivity].
Defined.

(** C8.  Tokens that are not empty and hold no delimiter (and, being C
    strings, no NUL), joined with single spaces and given to the
    tokenizer, come back as the same vector, whenever the allocator gives
    the tokenizer its array and the joined line is short enough for [int]
    to count its tokens. *)
Theorem split_join_round_trip (E : os) (toks : list cstring) (w : world) :
  forallb is_token toks = true ->
  heap_gives_from E (w_allocs w) ->
  Z.of_nat (length (join_spaces toks)) <= INT_MAX - tash_TOK_BUFSIZE ->
  exists p w', tash_split_line E (join_spaces toks) w = Returns (Argv p toks) w'.
Proof.
  intros Htoks Hheap Hlen.
  destruct (tash_split_line_gives E _ w Hheap Hlen) as (p & w' & Hrun).
  exists p, w'. rewrite Hrun. do 2 f_equal.
  rewrite (c_str_clean _ (join_spaces_clean _ Htoks)).
  eapply splits_unique; [apply tokens_of_splits|now apply join_spaces_splits].
Qed.

Lemma split_join_round_trip_witness :
  forallb is_token [cs "ls"; cs "-l"; cs "/tmp"] = true
  /\ heap_gives_from os_plain (w_allocs (start []))
  /\ Z.of_nat (length (join_spaces [cs "ls"; cs "-l"; cs "/tmp"]))
     <= INT_MAX - tash_TOK_BUFSIZE
  /\ exists p w',
      tash_split_line os_plain (join_spaces [cs "ls"; cs "-l"; cs "/tmp"]) (start [])
      = Returns (Argv p [cs "ls"; cs "-l"; cs "/tmp"]) w'.
Proof.
  split; [reflexivity|].
  split; [intros k _; discriminate|].
  split; [vm_compute; discriminate|].
  apply (split_join_round_trip os_plain [cs "ls"; cs "-l"; cs "/tmp"] (start []));
    [reflexivity|intros k _; discriminate|vm_compute; discriminate].
Defined.

(** C9.  When the first token is not ["exit"] (the empty vector
    included) and the dispatcher returns, it returns [Continue]; it never
    ends the process.  It does return, except in the two cases that
    belong to an external command: in the forked child whose [execvp]
    succeeded, where the program is replaced, and in the parent whose
    loop around [waitpid] never ends (the child never terminates, or
    [waitpid] fails again and again while [status] does not say that the
    child is gone). *)
Theorem only_exit_can_stop_the_loop (E : os) (args : argv) (w : world) :
  first_token args <> Some (cs "exit") ->
  match tash_execute E args w with
  | Returns status _ => status = Continue
  | Execs _ _ _ =>
      runs_in_process args = false /\ os_fork E (w_forks w) = Ok 0
  | Blocks _ =>
      runs_in_process args = false
      /\ exists pid, os_fork E (w_forks w) = Ok pid /\ 0 < pid
                     /\ wait_ends (os_stack E) (os_wait E pid) = false
  | _ => False
  end.
Proof. apply dispatch_fate. Qed.

Lemma only_exit_can_stop_the_loop_witness :
  first_token (Argv 0 [cs "ls"; cs "-l"]) <> Some (cs "exit")
  /\ match tash_execute os_plain (Argv 0 [cs "ls"; cs "-l"]) (start []) with
     | Returns status _ => status = Continue
     | Execs _ _ _ =>
         runs_in_process (Argv 0 [cs "ls"; cs "-l"]) = false
         /\ os_fork os_plain (w_forks (start [])) = Ok 0
     | Blocks _ =>
         runs_in_process (Argv 0 [cs "ls"; cs "-l"]) = false
         /\ exists pid, os_fork os_plain (w_forks (start [])) = Ok pid /\ 0 < pid
                        /\ wait_ends (os_stack os_plain) (os_wait os_plain pid) = false
     | _ => False
     end.
Proof.
  split; [vm_compute; discriminate|].
  apply (only_exit_can_stop_the_loop os_plain (Argv 0 [cs "ls"; cs "-l"]) (start [])).
  vm_compute; discriminate.
Defined.

(** C10.  [cd] reads [args[1]] and nothing behind it: with further
    arguments it does what it does without them, to the working
    directory, to the output and in what it returns, and the same holds
    of the dispatcher given ["cd"]. *)
Theorem cd_ignores_further_arguments (E : os) (p q : Z) (name path : cstring)
        (extra : list cstring) (w : world) :
  cd E (Argv p (name :: path :: extra)) w = cd E (Argv q [name; path]) w
  /\ tash_execute E (Argv p (cs "cd" :: path :: extra)) w
     = tash_execute E (Argv q [cs "cd"; path]) w.
Proof.
  split; [reflexivity|].
  rewrite !tash_execute_cases. reflexivity.
Qed.

(** * More of the code *)

(** ** The reader on a line *)

Lemma add_allocs_0 (w : world) : add_allocs 0 w = w.
Proof. now destruct w. Qed.

Lemma add_allocs_add (a b : nat) (w : world) :
  add_allocs a (add_allocs b w) = add_allocs (a + b) w.
Proof. unfold add_allocs. simpl. f_equal. lia. Qed.

Lemma heap_gives_from_later (E : os) (n m : nat) :
  heap_gives_from E n -> (n <= m)%nat -> heap_gives_from E m.
Proof. intros H Hnm k Hk. apply H. lia. Qed.

Lemma grown_size_step (unit position : Z) :
  0 < unit -> 0 <= position ->
  (position + 1 >= grown_size unit position ->
   (position + 1) / unit = position / unit + 1)
  /\ (position + 1 < grown_size unit position ->
      (position + 1) / unit = position / unit)
  /\ position < grown_size unit position <= position + unit.
Proof.
  intros Hu Hp. unfold grown_size.
  pose proof (Z.div_mod position unit ltac:(lia)) as Hdm.
  pose proof (Z.mod_pos_bound position unit Hu) as Hm.
  set (q := position / unit) in *. set (r := position mod unit) in *.
  split; [|split].
  - intros H. symmetry. apply (Z.div_unique_pos _ _ _ 0); nia.
  - intros H. symmetry. apply (Z.div_unique_pos _ _ _ (r + 1)); nia.
  - nia.
Qed.

Lemma read_advance_gives (E : os) (cells : list ascii) (position : Z) (w : world) :
  heap_gives_from E (w_allocs w) ->
  0 <= position -> position + 2 * tash_RL_BUFSIZE <= INT_MAX ->
  Z.of_nat (length cells) = grown_size tash_RL_BUFSIZE position ->
  exists extra g,
    read_advance E (Some cells) position (grown_size tash_RL_BUFSIZE position) w
    = Returns (Some (cells ++ extra), position + 1,
               grown_size tash_RL_BUFSIZE (position + 1))
              (add_allocs g w)
    /\ Z.of_nat (length (cells ++ extra))
       = grown_size tash_RL_BUFSIZE (position + 1)
    /\ Z.of_nat g = (position + 1) / tash_RL_BUFSIZE - position / tash_RL_BUFSIZE.
Proof.
  intros Hheap Hpos Hmax Hlen.
  destruct (grown_size_step tash_RL_BUFSIZE position) as (Hgrow & Hstay & Hin);
    [reflexivity|exact Hpos|].
  unfold read_advance.
  erewrite bind_returns
    by (apply int_add_in_range; unfold INT_MAX, tash_RL_BUFSIZE in *; lia).
  destruct (position + 1 >=? grown_size tash_RL_BUFSIZE position) eqn:Hge.
  - apply Z.geb_le in Hge. specialize (Hgrow ltac:(lia)).
    assert (grown_size tash_RL_BUFSIZE position + tash_RL_BUFSIZE
            = grown_size tash_RL_BUFSIZE (position + 1)) as Hnew.
    { unfold grown_size. rewrite Hgrow. lia. }
    erewrite bind_returns
      by (apply int_add_in_range; unfold INT_MAX, tash_RL_BUFSIZE in *; lia).
    destruct (allocate_gives E w Hheap) as [a Ha].
    exists (junk E (length cells) (Z.to_nat tash_RL_BUFSIZE)), 1%nat.
    split; [|split].
    + unfold realloc_chars.
      erewrite bind_returns by (erewrite bind_returns by exact Ha; reflexivity).
      erewrite bind_returns by reflexivity.
      unfold ret. rewrite <- Hnew. do 3 f_equal.
      change (default [] (Some cells)) with cells.
      rewrite take_ge by (unfold tash_RL_BUFSIZE in *; lia).
      do 3 f_equal. unfold tash_RL_BUFSIZE in *. lia.
    + rewrite <- Hnew, length_app. unfold junk. rewrite length_map, length_seq.
      unfold tash_RL_BUFSIZE in *. lia.
    + lia.
  - rewrite Z.geb_leb in Hge. apply Z.leb_gt in Hge. specialize (Hstay ltac:(lia)).
    exists [], 0%nat. rewrite app_nil_r, add_allocs_0.
    assert (grown_size tash_RL_BUFSIZE (position + 1)
            = grown_size tash_RL_BUFSIZE position) as ->
      by (unfold grown_size; now rewrite Hstay).
    split; [reflexivity|]. split; [exact Hlen|lia].
Qed.

Lemma char_of_int_code (c : ascii) : char_of_int (Z.of_N (N_of_ascii c)) = c.
Proof.
  unfold char_of_int. pose proof (N_ascii_bounded c) as Hc.
  rewrite Z.mod_small by lia. rewrite N2Z.id. apply ascii_N_embedding.
Qed.

Lemma code_not_LF (c : ascii) :
  Ascii.eqb c LF = false -> (Z.of_N (N_of_ascii c) =? Z.of_N (N_of_ascii LF)) = false.
Proof.
  intros H. apply Z.eqb_neq. intros Heq. apply Ascii.eqb_neq in H. apply H.
  apply N_of_ascii_inj. lia.
Qed.

Lemma code_not_EOF (c : ascii) : (Z.of_N (N_of_ascii c) =? EOF) = false.
Proof. apply Z.eqb_neq. unfold EOF. lia. Qed.

Lemma store_char_gives (cells : list ascii) (n : nat) (c : ascii) (w : world) :
  (n < length cells)%nat ->
  store_char (Some cells) (Z.of_nat n) c w = Returns (Some (<[n := c]> cells)) w.
Proof.
  intros H. unfold store_char.
  replace (0 <=? Z.of_nat n) with true by (symmetry; apply Z.leb_le; lia).
  replace (Z.of_nat n <? Z.of_nat (length cells)) with true
    by (symmetry; apply Z.ltb_lt; lia).
  rewrite Nat2Z.id. reflexivity.
Qed.

(** The rounds of [while (1)] that take the characters [s], none of them
    a newline, off the input. *)
Lemma read_loop_consume (E : os) (s : list ascii) :
  forall k cells n w tail,
    heap_gives_from E (w_allocs w) ->
    w_stdin w = s ++ tail -> one_line s = true ->
    Z.of_nat (length cells) = grown_size tash_RL_BUFSIZE (Z.of_nat n) ->
    Z.of_nat (n + length s) + 2 * tash_RL_BUFSIZE <= INT_MAX + 1 ->
    exists cells' g,
      read_loop E (length s + k) (Some cells) (Z.of_nat n)
                (grown_size tash_RL_BUFSIZE (Z.of_nat n)) w
      = read_loop E k (Some cells') (Z.of_nat (n + length s))
                  (grown_size tash_RL_BUFSIZE (Z.of_nat (n + length s)))
                  (set_stdin tail (add_allocs g w))
      /\ Z.of_nat (length cells')
         = grown_size tash_RL_BUFSIZE (Z.of_nat (n + length s))
      /\ take (n + length s) cells' = take n cells ++ s
      /\ Z.of_nat g = Z.of_nat (n + length s) / tash_RL_BUFSIZE
                      - Z.of_nat n / tash_RL_BUFSIZE.
Proof.
  induction s as [|c s IH]; intros k cells n w tail Hheap Hin Hline Hlen Hmax.
  - exists cells, 0%nat. cbn [length]. rewrite !Nat.add_0_r, app_nil_r.
    split; [|split; [exact Hlen|split; [reflexivity|lia]]].
    f_equal. destruct w. simpl in *. now subst.
  - cbn [length] in *. cbn [one_line forallb] in Hline.
    apply andb_prop in Hline as [Hc Hline]. apply negb_true_iff in Hc.
    destruct (grown_size_step tash_RL_BUFSIZE (Z.of_nat n)) as (_ & _ & Hsize);
      [reflexivity|lia|].
    assert (n < length cells)%nat as Hn by lia.
    cbn [Nat.add read_loop].
    erewrite bind_returns by (unfold getchar; rewrite Hin; reflexivity).
    rewrite code_not_EOF, (code_not_LF c Hc), char_of_int_code.
    erewrite bind_returns by (apply store_char_gives; exact Hn).
    destruct (read_advance_gives E (<[n := c]> cells) (Z.of_nat n)
                (set_stdin (s ++ tail) w)) as (extra & g1 & Hadv & Hlen1 & Hg1).
    { exact Hheap. }
    { lia. }
    { unfold tash_RL_BUFSIZE in *. lia. }
    { now rewrite length_insert. }
    erewrite bind_returns by exact Hadv. cbv beta iota.
    replace (Z.of_nat n + 1) with (Z.of_nat (S n)) in * by lia.
    destruct (IH k (<[n := c]> cells ++ extra) (S n)
                 (add_allocs g1 (set_stdin (s ++ tail) w)) tail)
      as (cells' & g2 & Hrun & Hlen2 & Htake & Hg2).
    { eapply heap_gives_from_later; [exact Hheap|simpl; lia]. }
    { reflexivity. }
    { exact Hline. }
    { exact Hlen1. }
    { lia. }
    exists cells', (g1 + g2)%nat.
    replace (n + S (length s))%nat with (S n + length s)%nat by lia.
    split; [|split; [exact Hlen2|split]].
    + rewrite Hrun. f_equal. unfold set_stdin, add_allocs. simpl. f_equal. lia.
    + rewrite Htake. rewrite take_app_le by (rewrite length_insert; lia).
      rewrite (take_S_r _ _ c) by (apply list_lookup_insert_eq; exact Hn).
      rewrite take_insert_ge by lia. rewrite <- app_assoc. reflexivity.
    + lia.
Qed.

Lemma c_str_app_NUL (s t : list ascii) : c_str (s ++ NUL :: t) = c_str s.
Proof.
  induction s as [|c s IH]; simpl; [reflexivity|].
  destruct (Ascii.eqb c NUL); [reflexivity|now rewrite IH].
Qed.

Lemma tash_read_line_gives (E : os) (s rest : list ascii) (fuel : nat) (w : world) :
  heap_gives_from E (w_allocs w) ->
  w_stdin w = s ++ LF :: rest -> one_line s = true ->
  (length s < fuel)%nat ->
  Z.of_nat (length s) + 2 * tash_RL_BUFSIZE <= INT_MAX ->
  exists cells,
    tash_read_line E fuel w
    = Returns cells
        (set_stdin rest
           (add_allocs (1 + Z.to_nat (Z.of_nat (length s) / tash_RL_BUFSIZE)) w))
    /\ take (S (length s)) cells = s ++ [NUL]
    /\ Z.of_nat (length cells)
       = grown_size tash_RL_BUFSIZE (Z.of_nat (length s)).
Proof.
  intros Hheap Hin Hline Hfuel Hmax. unfold tash_read_line.
  destruct (allocate_gives E w Hheap) as [a Ha].
  unfold malloc_chars.
  erewrite bind_returns by (erewrite bind_returns by exact Ha; reflexivity).
  erewrite bind_returns by reflexivity.
  replace fuel with (length s + S (fuel - length s - 1))%nat by lia.
  destruct (read_loop_consume E s (S (fuel - length s - 1))
              (junk E 0 (Z.to_nat tash_RL_BUFSIZE)) 0%nat (count_alloc w)
              (LF :: rest)) as (cells' & g & Hrun & Hlen & Htake & Hg).
  { eapply heap_gives_from_later; [exact Hheap|simpl; lia]. }
  { exact Hin. }
  { exact Hline. }
  { unfold junk. rewrite length_map, length_seq. reflexivity. }
  { simpl. lia. }
  change (Z.of_nat 0) with 0 in Hrun.
  change (grown_size tash_RL_BUFSIZE 0) with tash_RL_BUFSIZE in Hrun.
  rewrite Hrun. cbn [Nat.add] in *. cbn [read_loop].
  erewrite bind_returns by reflexivity.
  change (Z.of_N (N_of_ascii LF) =? EOF) with false.
  change (Z.of_N (N_of_ascii LF) =? Z.of_N (N_of_ascii LF)) with true.
  cbv iota.
  destruct (grown_size_step tash_RL_BUFSIZE (Z.of_nat (length s)))
    as (_ & _ & Hsize); [reflexivity|lia|].
  assert (length s < length cells')%nat as Hn by lia.
  erewrite bind_returns by (apply store_char_gives; exact Hn).
  exists (<[length s := NUL]> cells'). split; [|split].
  - unfold ret. f_equal. unfold set_stdin, add_allocs, count_alloc. simpl.
    f_equal. change (Z.of_nat 0 / tash_RL_BUFSIZE) with 0 in Hg. lia.
  - rewrite (take_S_r _ _ NUL) by (apply list_lookup_insert_eq; exact Hn).
    rewrite take_insert_ge by lia. now rewrite Htake.
  - now rewrite length_insert.
Qed.

(** ** The tokenizer and the state *)

Lemma allocate_answer (E : os) (w : world) (a : Z) :
  os_heap E (w_allocs w) = Some a ->
  allocate E w = Returns (Some a) (count_alloc w).
Proof. intros H. unfold allocate. now rewrite H. Qed.

Lemma split_loop_exact (E : os) (fuel : nat) :
  forall t toks p position w,
    heap_gives_from E (w_allocs w) ->
    position = Z.of_nat (length toks) ->
    (length (w_strtok w) < fuel)%nat ->
    Z.of_nat (length (toks ++ t :: tokens_of (w_strtok w))) + tash_TOK_BUFSIZE
    <= INT_MAX ->
    exists p' g,
      split_loop E fuel (Some t) (Some (Argv p toks)) position
                 (grown_size tash_TOK_BUFSIZE position) w
      = Returns (Some (Argv p' (toks ++ t :: tokens_of (w_strtok w))),
                 Z.of_nat (length (toks ++ t :: tokens_of (w_strtok w))))
                (set_strtok [] (add_allocs g w))
      /\ Z.of_nat g
         = Z.of_nat (length (toks ++ t :: tokens_of (w_strtok w))) / tash_TOK_BUFSIZE
           - position / tash_TOK_BUFSIZE
      /\ (g = 0%nat -> p' = p)
      /\ ((0 < g)%nat -> os_heap E (g + w_allocs w - 1) = Some p').
Proof.
  induction fuel as [|fuel IH]; intros t toks p position w Hheap Hpos Hfuel Hmax;
    [lia|].
  destruct (grown_size_step tash_TOK_BUFSIZE position) as (Hgrow & Hstay & Hsize);
    [reflexivity|lia|].
  rewrite length_app in Hmax. cbn [length] in Hmax.
  cbn [split_loop]. unfold store_ptr. cbn [argv_ptr argv_toks].
  erewrite bind_returns by reflexivity.
  erewrite bind_returns
    by (apply int_add_in_range; unfold INT_MAX, tash_TOK_BUFSIZE in *; lia).
  assert (exists p1 g1,
    (if position + 1 >=? grown_size tash_TOK_BUFSIZE position
     then
       let* bufsize0 := int_add (grown_size tash_TOK_BUFSIZE position)
                                tash_TOK_BUFSIZE in
       let* tokens := realloc_ptrs E (Some (Argv p (toks ++ [t]))) in
       let* _ := match tokens with
                 | Some _ => ret tt
                 | None =>
                     let* _ := fprintf_stderr allocation_error in
                     let* _ := tash_exit EXIT_FAILURE in ret tt
                 end in
       ret (tokens, bufsize0)
     else ret (Some (Argv p (toks ++ [t])), grown_size tash_TOK_BUFSIZE position)) w
    = Returns (Some (Argv p1 (toks ++ [t])),
               grown_size tash_TOK_BUFSIZE (position + 1)) (add_allocs g1 w)
    /\ Z.of_nat g1 = (position + 1) / tash_TOK_BUFSIZE - position / tash_TOK_BUFSIZE
    /\ (g1 = 0%nat -> p1 = p)
    /\ ((0 < g1)%nat -> os_heap E (g1 + w_allocs w - 1) = Some p1))
    as (p1 & g1 & Hstep & Hg1 & Hp0 & Hp1).
  { destruct (position + 1 >=? grown_size tash_TOK_BUFSIZE position) eqn:Hge.
    - apply Z.geb_le in Hge. specialize (Hgrow ltac:(lia)).
      destruct (os_heap E (w_allocs w)) as [a|] eqn:Ha;
        [|exfalso; now apply (Hheap (w_allocs w))].
      exists a, 1%nat. split; [|split; [lia|split; [lia|]]].
      + erewrite bind_returns
          by (apply int_add_in_range; unfold INT_MAX, tash_TOK_BUFSIZE in *; lia).
        unfold realloc_ptrs.
        erewrite bind_returns
          by (erewrite bind_returns by (apply allocate_answer; exact Ha);
              reflexivity).
        erewrite bind_returns by reflexivity.
        unfold ret, grown_size. rewrite Hgrow. do 2 f_equal. lia.
      + intros _. rewrite <- Ha. f_equal. lia.
    - rewrite Z.geb_leb in Hge. apply Z.leb_gt in Hge. specialize (Hstay ltac:(lia)).
      exists p, 0%nat. rewrite add_allocs_0. unfold ret, grown_size.
      rewrite Hstay. split; [reflexivity|split; [lia|split; [auto|lia]]]. }
  erewrite bind_returns by exact Hstep. clear Hstep. cbv beta iota.
  rewrite (tokens_of_step (w_strtok w)) in *.
  destruct (skip_delims tash_TOK_DELIM (w_strtok w)) as [|c r] eqn:Hskip.
  - erewrite bind_returns by (unfold strtok; cbn [w_strtok add_allocs]; rewrite Hskip; reflexivity).
    exists p1, g1. split; [|split; [|split; [exact Hp0|exact Hp1]]].
    + destruct fuel; cbn [split_loop]; unfold ret;
        rewrite Hpos, length_app, Nat2Z.inj_add; reflexivity.
    + rewrite length_app. cbn [length]. rewrite Hg1. do 2 f_equal. lia.
  - destruct (scan_token tash_TOK_DELIM (c :: r)) as [t' b] eqn:Hscan.
    erewrite bind_returns
      by (unfold strtok; cbn [w_strtok add_allocs]; rewrite Hskip, Hscan; reflexivity).
    destruct (strtok_round _ _ _ _ _ Hskip Hscan) as [Ht' Hl].
    destruct (IH t' (toks ++ [t]) p1 (position + 1)
                 (set_strtok b (add_allocs g1 w))) as (p' & g2 & Hrec & Hg2 & Hq0 & Hq1).
    + eapply heap_gives_from_later; [exact Hheap|simpl; lia].
    + rewrite Hpos, length_app. simpl. lia.
    + simpl. destruct t'; [congruence|]. simpl in Hl. lia.
    + cbn [w_strtok set_strtok]. rewrite !length_app. cbn [length] in *. lia.
    + cbn [w_strtok set_strtok] in Hrec, Hg2.
      rewrite <- app_assoc in Hrec, Hg2. cbn [app] in Hrec, Hg2.
      exists p', (g1 + g2)%nat. split; [|split; [|split]].
      * rewrite Hrec. f_equal. unfold set_strtok, add_allocs. simpl. f_equal. lia.
      * lia.
      * intros H0. assert (g1 = 0 /\ g2 = 0)%nat as [H1 H2] by lia.
        rewrite (Hq0 H2). auto.
      * intros Hpos'. destruct g2 as [|g2].
        -- rewrite (Hq0 eq_refl). rewrite Nat.add_0_r. apply Hp1. lia.
        -- specialize (Hq1 ltac:(lia)). simpl in Hq1. rewrite <- Hq1. f_equal. lia.
Qed.

Lemma tash_split_line_exact (E : os) (line : list ascii) (w : world) :
  heap_gives_from E (w_allocs w) ->
  Z.of_nat (length line) <= INT_MAX - tash_TOK_BUFSIZE ->
  exists p,
    tash_split_line E line w
    = Returns (Argv p (tokens_of (c_str line)))
        (set_strtok []
           (add_allocs (1 + length (tokens_of (c_str line)) / 64) w))
    /\ os_heap E (w_allocs w + length (tokens_of (c_str line)) / 64) = Some p.
Proof.
  intros Hheap Hlen. unfold tash_split_line.
  destruct (os_heap E (w_allocs w)) as [a|] eqn:Ha;
    [|exfalso; now apply (Hheap (w_allocs w))].
  unfold malloc_ptrs.
  erewrite bind_returns
    by (erewrite bind_returns by (apply allocate_answer; exact Ha); reflexivity).
  erewrite bind_returns by reflexivity.
  pose proof (c_str_length line) as Hc.
  pose proof (splits_length _ _ (tokens_of_splits (c_str line))) as Hn.
  rewrite (tokens_of_step (c_str line)) in *.
  destruct (skip_delims tash_TOK_DELIM (c_str line)) as [|c r] eqn:Hskip.
  - erewrite bind_returns by (unfold strtok; rewrite Hskip; reflexivity).
    cbn [split_loop]. erewrite bind_returns by reflexivity.
    exists a. split; [reflexivity|].
    cbn [length]. rewrite Nat.add_0_r. exact Ha.
  - destruct (scan_token tash_TOK_DELIM (c :: r)) as [t b] eqn:Hscan.
    erewrite bind_returns by (unfold strtok; rewrite Hskip, Hscan; reflexivity).
    destruct (strtok_round _ _ _ _ _ Hskip Hscan) as [Ht Hl].
    destruct (split_loop_exact E (S (length line)) t [] a 0
                (set_strtok b (count_alloc w)))
      as (p' & g & Hloop & Hg & Hp0 & Hp1).
    + eapply heap_gives_from_later; [exact Hheap|simpl; lia].
    + reflexivity.
    + cbn [w_strtok set_strtok]. lia.
    + cbn [w_strtok set_strtok app]. unfold tash_TOK_BUFSIZE in *. lia.
    + cbn [w_strtok set_strtok app] in Hloop, Hg.
      change (grown_size tash_TOK_BUFSIZE 0) with tash_TOK_BUFSIZE in Hloop.
      erewrite bind_returns by exact Hloop. cbv beta iota.
      assert (g = length (t :: tokens_of b) / 64)%nat as Hg'.
      { apply Nat2Z.inj. rewrite Nat2Z.inj_div. rewrite Hg.
        change (0 / tash_TOK_BUFSIZE) with 0. unfold tash_TOK_BUFSIZE.
        change (Z.of_nat 64) with 64. lia. }
      exists p'. split.
      * unfold ret. f_equal. unfold set_strtok, add_allocs, count_alloc. simpl.
        f_equal. simpl in Hg'. lia.
      * destruct g as [|g].
        -- rewrite <- Hg', Nat.add_0_r, (Hp0 eq_refl). exact Ha.
        -- specialize (Hp1 ltac:(lia)). cbn [w_allocs set_strtok count_alloc] in Hp1.
           rewrite <- Hg', <- Hp1. f_equal. lia.
Qed.

(** ** The tokens as an argument vector *)

Lemma c_str_no_NUL (cells : list ascii) :
  forallb (fun c => negb (Ascii.eqb c NUL)) (c_str cells) = true.
Proof.
  induction cells as [|c cells IH]; simpl; [reflexivity|].
  destruct (Ascii.eqb c NUL) eqn:Hc; simpl; [reflexivity|].
  now rewrite Hc, IH.
Qed.

Lemma is_token_from_parts (t : cstring) :
  t <> [] ->
  forallb (fun c => negb (is_delim c)) t = true ->
  forallb (fun c => negb (Ascii.eqb c NUL)) t = true ->
  is_token t = true.
Proof.
  intros Hne Hnd Hnn. unfold is_token. apply andb_true_intro. split.
  - destruct t; [congruence|reflexivity].
  - clear Hne. induction t as [|c t IH]; simpl in *; [reflexivity|].
    apply andb_prop in Hnd as [-> Hnd]. apply andb_prop in Hnn as [-> Hnn].
    simpl. now apply IH.
Qed.

Lemma splits_tokens (s : cstring) ts :
  splits s ts ->
  forallb (fun c => negb (Ascii.eqb c NUL)) s = true ->
  forallb is_token ts = true.
Proof.
  induction 1 as [|c s ts Hc H IH|t s ts Ht Hnd Hb H IH]; intros Hnn.
  - reflexivity.
  - simpl in Hnn. apply andb_prop in Hnn as [_ Hnn]. now apply IH.
  - rewrite forallb_app in Hnn. apply andb_prop in Hnn as [Hnt Hns].
    simpl. rewrite (is_token_from_parts t Ht Hnd Hnt). now apply IH.
Qed.

Lemma join_spaces_length (s : cstring) ts :
  splits s ts ->
  (length (join_spaces ts) <= length s)%nat
  /\ (at_boundary s -> ts <> [] -> (S (length (join_spaces ts)) <= length s)%nat).
Proof.
  induction 1 as [|c s ts Hc H [IH1 IH2]|t s ts Ht Hnd Hb H [IH1 IH2]].
  - split; [simpl; lia|congruence].
  - split; simpl; [lia|intros _ _; lia].
  - split.
    + destruct ts as [|t' ts'].
      * simpl. rewrite length_app. lia.
      * change (join_spaces (t :: t' :: ts'))
          with (t ++ SPC :: join_spaces (t' :: ts')).
        rewrite !length_app. cbn [length].
        specialize (IH2 Hb ltac:(discriminate)). lia.
    + intros Hbound _. exfalso. destruct t as [|c t]; [congruence|].
      simpl in Hbound, Hnd. rewrite Hbound in Hnd. discriminate.
Qed.

(** ** Commands that are not builtins *)

(** The loop around [waitpid] looks at a status only to see whether it
    says that the child is gone. *)
Lemma wait_sees_gone_only (f : wstatus -> wstatus)
      (answers : list (sysres wstatus)) :
  (forall s, gone (f s) = gone s) ->
  forall status errno,
    wait_ends (f status) (map (relabel f) answers) = wait_ends status answers
    /\ wait_errno (f status) (map (relabel f) answers) errno
       = wait_errno status answers errno.
Proof.
  intros Hf. induction answers as [|answer later IH]; intros status errno.
  - split; reflexivity.
  - cbn [map wait_ends wait_errno].
    assert (status_after (relabel f answer) (f status)
            = f (status_after answer status)) as ->
      by (destruct answer; reflexivity).
    rewrite Hf.
    assert (match relabel f answer with Ok _ => errno | Err e => e end
            = match answer with Ok _ => errno | Err e => e end) as ->
      by (destruct answer; reflexivity).
    destruct (IH (status_after answer status)
                 (match answer with Ok _ => errno | Err e => e end)) as [-> ->].
    split; reflexivity.
Qed.

Lemma dispatch_external (E : os) (p : Z) (name : cstring) rest (w : world) :
  ~ In (c_str name) builtin_str ->
  tash_execute E (Argv p (name :: rest)) w
  = tash_launch E (Argv p (name :: rest)) (add_stdout (colour "33") w).
Proof.
  intros Hname. rewrite tash_execute_cases. cbv zeta.
  rewrite !strcmp_neq; [reflexivity| | |];
    intros Heq; apply Hname; rewrite Heq; simpl; auto.
Qed.

Lemma dispatch_builtin (E : os) (p : Z) (name : cstring) rest (w : world) :
  c_str name = cs "cd" \/ c_str name = cs "help" ->
  tash_execute E (Argv p (name :: rest)) w
  = (if strcmp name (cs "cd") =? 0 then cd E else help)
      (Argv p (name :: rest)) (add_stdout (colour "33") w).
Proof.
  intros [Hname|Hname]; rewrite tash_execute_cases; cbv zeta.
  - now rewrite (strcmp_same name (cs "cd")) by (now rewrite Hname).
  - rewrite (strcmp_neq name (cs "cd")) by (rewrite Hname; discriminate).
    now rewrite (strcmp_same name (cs "help")) by (now rewrite Hname).
Qed.

(** ** One round of the loop *)

Lemma bind_same_on_returns {A B} (m : M A) (k k' : A -> M B) w :
  (forall a w', m w = Returns a w' -> k a w' = k' a w') ->
  bind m k w = bind m k' w.
Proof.
  intros H. unfold bind. destruct (m w) as [a w'| | | | |]; auto.
Qed.

Lemma world_fields (w w' : world) :
  w_stdin w = w_stdin w' -> w_stdout w = w_stdout w' ->
  w_stderr w = w_stderr w' -> w_cwd w = w_cwd w' -> w_errno w = w_errno w' ->
  w_strtok w = w_strtok w' -> w_allocs w = w_allocs w' ->
  w_forks w = w_forks w' -> w = w'.
Proof. destruct w, w'. simpl. intros. now subst. Qed.

Lemma c_str_of_line (cells s : list ascii) :
  take (S (length s)) cells = s ++ [NUL] -> c_str cells = c_str s.
Proof.
  intros H. rewrite <- (take_drop (S (length s)) cells), H, <- app_assoc.
  apply c_str_app_NUL.
Qed.

(** The state in which the command of a line is dispatched: the prompt
    and the colour codes are out, the line is off the input, and the
    buffer and the array have been asked for. *)
Lemma tash_loop_round (E : os) (s rest : list ascii) (fuel : nat) (w : world) :
  heap_gives_from E (w_allocs w) ->
  w_stdin w = s ++ LF :: rest -> one_line s = true ->
  (length s <= fuel)%nat ->
  Z.of_nat (length s) + 2 * tash_RL_BUFSIZE + tash_TOK_BUFSIZE <= INT_MAX ->
  exists p w1,
    tash_loop E (S fuel) w
    = (let* _ := tash_execute E (Argv p (tokens_of (c_str s))) in
       tash_loop E fuel) w1
    /\ w1 = World rest
              (w_stdout w ++ prompt_text)
              (w_stderr w) (w_cwd w) (w_errno w) []
              (2 + length s / 1024 + length (tokens_of (c_str s)) / 64
               + w_allocs w)
              (w_forks w).
Proof.
  intros Hheap Hin Hline Hfuel Hmax. cbn [tash_loop].
  do 5 (erewrite bind_returns by reflexivity).
  set (w0 := add_stdout _ (add_stdout _ (add_stdout _ (add_stdout _ (add_stdout _ w))))).
  destruct (tash_read_line_gives E s rest (S fuel) w0) as (cells & Hread & Htake & Hlen);
    [exact Hheap|exact Hin|exact Hline|lia|unfold tash_TOK_BUFSIZE in *; lia|].
  erewrite bind_returns by exact Hread.
  destruct (grown_size_step tash_RL_BUFSIZE (Z.of_nat (length s)))
    as (_ & _ & Hsize); [reflexivity|lia|].
  match goal with |- context [tash_split_line E cells] =>
    match goal with |- exists p w1, bind _ _ ?wr = _ /\ _ =>
      destruct (tash_split_line_exact E cells wr) as (p & Hsplit & Hp)
    end end.
  { eapply heap_gives_from_later; [exact Hheap|simpl; lia]. }
  { unfold tash_RL_BUFSIZE, tash_TOK_BUFSIZE in *. lia. }
  rewrite (c_str_of_line cells s Htake) in Hsplit.
  erewrite bind_returns by exact Hsplit.
  erewrite bind_returns by reflexivity.
  exists p. eexists. split.
  - apply bind_same_on_returns. intros status w' Hret.
    apply dispatch_never_terminate in Hret. now subst status.
  - assert (Z.to_nat (Z.of_nat (length s) / tash_RL_BUFSIZE) = length s / 1024)%nat
      as ->.
    { apply Nat2Z.inj. rewrite Nat2Z.inj_div, Z2Nat.id; [reflexivity|].
      apply Z.div_pos; [lia|reflexivity]. }
    subst w0. apply world_fields;
      cbn [w_stdin w_stdout w_stderr w_cwd w_errno w_strtok w_allocs w_forks
           add_stdout set_strtok add_allocs set_stdin];
      try reflexivity.
    + rewrite <- !app_assoc. reflexivity.
    + lia.
Qed.

(** * More properties of the code *)

(** X1.  A line that ends in a newline is read whole, whatever its
    length: the buffer that [tash_read_line] returns holds the characters
    of the line and then a NUL, the line and its newline are off the
    input and what follows them is not, the buffer has grown in steps of
    1024 cells, with one request to the allocator for each, and nothing
    else has changed.  The string a reader of the buffer sees is the line
    up to its first NUL. *)
Theorem read_line_returns_the_line (E : os) (s rest : list ascii) (fuel : nat)
        (w : world) :
  heap_gives_from E (w_allocs w) ->
  w_stdin w = s ++ LF :: rest -> one_line s = true ->
  (length s < fuel)%nat ->
  Z.of_nat (length s) + 2 * tash_RL_BUFSIZE <= INT_MAX ->
  exists cells,
    tash_read_line E fuel w
    = Returns cells (set_stdin rest (add_allocs (1 + length s / 1024) w))
    /\ take (S (length s)) cells = s ++ [NUL]
    /\ c_str cells = c_str s
    /\ length cells = (1024 * (length s / 1024 + 1))%nat.
Proof.
  intros Hheap Hin Hline Hfuel Hmax.
  destruct (tash_read_line_gives E s rest fuel w Hheap Hin Hline Hfuel Hmax)
    as (cells & Hrun & Htake & Hlen).
  assert (Z.of_nat (length s) / tash_RL_BUFSIZE = Z.of_nat (length s / 1024)) as Hdiv
    by (rewrite Nat2Z.inj_div; reflexivity).
  exists cells. split; [|split; [exact Htake|split]].
  - rewrite Hrun, Hdiv, Nat2Z.id. reflexivity.
  - now apply c_str_of_line.
  - unfold grown_size in Hlen. rewrite Hdiv in Hlen. unfold tash_RL_BUFSIZE in Hlen.
    lia.
Qed.

Lemma read_line_returns_the_line_witness :
  heap_gives_from os_plain (w_allocs (start (cs "ls -l" ++ LF :: cs "pwd")))
  /\ w_stdin (start (cs "ls -l" ++ LF :: cs "pwd")) = cs "ls -l" ++ LF :: cs "pwd"
  /\ one_line (cs "ls -l") = true
  /\ (length (cs "ls -l") < 8)%nat
  /\ Z.of_nat (length (cs "ls -l")) + 2 * tash_RL_BUFSIZE <= INT_MAX
  /\ exists cells,
      tash_read_line os_plain 8 (start (cs "ls -l" ++ LF :: cs "pwd"))
      = Returns cells
          (set_stdin (cs "pwd")
             (add_allocs (1 + length (cs "ls -l") / 1024)
                (start (cs "ls -l" ++ LF :: cs "pwd"))))
      /\ take (S (length (cs "ls -l"))) cells = cs "ls -l" ++ [NUL]
      /\ c_str cells = c_str (cs "ls -l")
      /\ length cells = (1024 * (length (cs "ls -l") / 1024 + 1))%nat.
Proof.
  split; [intros k _; discriminate|].
  split; [reflexivity|]. split; [reflexivity|].
  split; [vm_compute; lia|]. split; [vm_compute; discriminate|].
  apply (read_line_returns_the_line os_plain (cs "ls -l") (cs "pwd") 8
           (start (cs "ls -l" ++ LF :: cs "pwd")));
    [intros k _; discriminate|reflexivity|reflexivity|vm_compute; lia
    |vm_compute; discriminate].
Defined.

(** X2.  Characters that are not followed by a newline before the input
    ends are never returned: when the allocator gives what is asked, the
    reader takes them off the input and is then, after any number of
    rounds that [int] can count, still in its [while (1)]. *)
Theorem unterminated_line_is_not_returned (E : os) (s : list ascii) (fuel : nat)
        (w : world) :
  heap_gives_from E (w_allocs w) ->
  w_stdin w = s -> one_line s = true ->
  (length s <= fuel)%nat ->
  Z.of_nat fuel + 2 * tash_RL_BUFSIZE <= INT_MAX ->
  tash_read_line E fuel w = OutOfFuel.
Proof.
  intros Hheap Hin Hline Hfuel Hmax. unfold tash_read_line.
  destruct (allocate_gives E w Hheap) as [a Ha].
  unfold malloc_chars.
  erewrite bind_returns by (erewrite bind_returns by exact Ha; reflexivity).
  erewrite bind_returns by reflexivity.
  replace fuel with (length s + (fuel - length s))%nat by lia.
  destruct (read_loop_consume E s (fuel - length s)
              (junk E 0 (Z.to_nat tash_RL_BUFSIZE)) 0%nat (count_alloc w) [])
    as (cells' & g & Hrun & Hlen & _ & _).
  { eapply heap_gives_from_later; [exact Hheap|simpl; lia]. }
  { cbn [w_stdin count_alloc]. now rewrite app_nil_r. }
  { exact Hline. }
  { unfold junk. rewrite length_map, length_seq. reflexivity. }
  { unfold tash_RL_BUFSIZE in *. lia. }
  change (Z.of_nat 0) with 0 in Hrun.
  change (grown_size tash_RL_BUFSIZE 0) with tash_RL_BUFSIZE in Hrun.
  rewrite Hrun. cbn [Nat.add].
  destruct (grown_size_step tash_RL_BUFSIZE (Z.of_nat (length s)))
    as (_ & _ & Hsize); [reflexivity|lia|].
  apply read_loop_spins; [reflexivity|lia|lia|unfold tash_RL_BUFSIZE in *; lia].
Qed.

Lemma unterminated_line_is_not_returned_witness :
  heap_gives_from os_plain (w_allocs (start (cs "ls")))
  /\ w_stdin (start (cs "ls")) = cs "ls"
  /\ one_line (cs "ls") = true
  /\ (length (cs "ls") <= 3000)%nat
  /\ Z.of_nat 3000 + 2 * tash_RL_BUFSIZE <= INT_MAX
  /\ tash_read_line os_plain 3000 (start (cs "ls")) = OutOfFuel.
Proof.
  split; [intros k _; discriminate|].
  split; [reflexivity|]. split; [reflexivity|].
  split; [vm_compute; lia|]. split; [vm_compute; discriminate|].
  apply (unterminated_line_is_not_returned os_plain (cs "ls") 3000 (start (cs "ls")));
    [intros k _; discriminate|reflexivity|reflexivity|vm_compute; lia
    |vm_compute; discriminate].
Defined.

(** X3.  Every entry of the vector that [tash_split_line] returns is a
    token: a string that is not empty and holds neither a delimiter nor a
    NUL.  No empty argument reaches a command, and the vector is never
    longer than the line. *)
Theorem split_line_gives_tokens (E : os) (line : list ascii) (w : world) :
  heap_gives_from E (w_allocs w) ->
  Z.of_nat (length line) <= INT_MAX - tash_TOK_BUFSIZE ->
  exists p toks w',
    tash_split_line E line w = Returns (Argv p toks) w'
    /\ forallb is_token toks = true
    /\ (length toks <= length line)%nat.
Proof.
  intros Hheap Hlen.
  destruct (tash_split_line_gives E line w Hheap Hlen) as (p & w' & Hrun).
  exists p, (tokens_of (c_str line)), w'. split; [exact Hrun|]. split.
  - eapply splits_tokens; [apply tokens_of_splits|apply c_str_no_NUL].
  - pose proof (splits_length _ _ (tokens_of_splits (c_str line))).
    pose proof (c_str_length line). lia.
Qed.

Lemma split_line_gives_tokens_witness :
  heap_gives_from os_plain (w_allocs (start []))
  /\ Z.of_nat (length line_echo) <= INT_MAX - tash_TOK_BUFSIZE
  /\ exists p toks w',
      tash_split_line os_plain line_echo (start []) = Returns (Argv p toks) w'
      /\ forallb is_token toks = true
      /\ (length toks <= length line_echo)%nat.
Proof.
  split; [intros k _; discriminate|]. split; [vm_compute; discriminate|].
  apply (split_line_gives_tokens os_plain line_echo (start []));
    [intros k _; discriminate|vm_compute; discriminate].
Defined.

(** X4.  What the tokenizer does to the state: for a line of [n]
    tokens it asks the allocator [1 + n / 64] times (the array starts
    with 64 entries and gets 64 more each time it is full), the array it
    returns is the block of the last answer, [strtok] is left with nothing
    to go on with, and nothing else changes: no output, the same input,
    the same directory. *)
Theorem split_line_state (E : os) (line : list ascii) (w : world) :
  heap_gives_from E (w_allocs w) ->
  Z.of_nat (length line) <= INT_MAX - tash_TOK_BUFSIZE ->
  exists p toks,
    tash_split_line E line w
    = Returns (Argv p toks)
        (set_strtok [] (add_allocs (1 + length toks / 64) w))
    /\ os_heap E (w_allocs w + length toks / 64) = Some p.
Proof.
  intros Hheap Hlen.
  destruct (tash_split_line_exact E line w Hheap Hlen) as (p & Hrun & Hp).
  now exists p, (tokens_of (c_str line)).
Qed.

Lemma split_line_state_witness :
  heap_gives_from os_plain (w_allocs (start []))
  /\ Z.of_nat (length line_64) <= INT_MAX - tash_TOK_BUFSIZE
  /\ exists p toks,
      tash_split_line os_plain line_64 (start [])
      = Returns (Argv p toks)
          (set_strtok [] (add_allocs (1 + length toks / 64) (start [])))
      /\ os_heap os_plain (w_allocs (start []) + length toks / 64) = Some p.
Proof.
  split; [intros k _; discriminate|]. split; [vm_compute; discriminate|].
  apply (split_line_state os_plain line_64 (start []));
    [intros k _; discriminate|vm_compute; discriminate].
Defined.

(** X5.  Splitting, joining with single spaces and splitting again gives
    the vector of the first split, for every line: the tokenizer sees in a
    line nothing but its tokens and their order. *)
Theorem split_join_split (E : os) (line : list ascii) (w w2 : world) :
  heap_gives_from E (w_allocs w) ->
  heap_gives_from E (w_allocs w2) ->
  Z.of_nat (length line) <= INT_MAX - tash_TOK_BUFSIZE ->
  exists p toks w1 q w3,
    tash_split_line E line w = Returns (Argv p toks) w1
    /\ tash_split_line E (join_spaces toks) w2 = Returns (Argv q toks) w3.
Proof.
  intros Hheap Hheap2 Hlen.
  destruct (tash_split_line_gives E line w Hheap Hlen) as (p & w1 & Hrun).
  pose proof (tokens_of_splits (c_str line)) as Hsplits.
  pose proof (splits_tokens _ _ Hsplits (c_str_no_NUL line)) as Htoks.
  destruct (join_spaces_length _ _ Hsplits) as [Hjoin _].
  pose proof (c_str_length line) as Hc.
  destruct (tash_split_line_gives E (join_spaces (tokens_of (c_str line))) w2 Hheap2)
    as (q & w3 & Hrun2); [lia|].
  exists p, (tokens_of (c_str line)), w1, q, w3. split; [exact Hrun|].
  rewrite Hrun2. do 2 f_equal.
  rewrite (c_str_clean _ (join_spaces_clean _ Htoks)).
  eapply splits_unique; [apply tokens_of_splits|now apply join_spaces_splits].
Qed.

Lemma split_join_split_witness :
  heap_gives_from os_plain (w_allocs (start []))
  /\ heap_gives_from os_plain (w_allocs (start (cs "x")))
  /\ Z.of_nat (length line_echo) <= INT_MAX - tash_TOK_BUFSIZE
  /\ exists p toks w1 q w3,
      tash_split_line os_plain line_echo (start []) = Returns (Argv p toks) w1
      /\ tash_split_line os_plain (join_spaces toks) (start (cs "x"))
         = Returns (Argv q toks) w3.
Proof.
  split; [intros k _; discriminate|]. split; [intros k _; discriminate|].
  split; [vm_compute; discriminate|].
  apply (split_join_split os_plain line_echo (start []) (start (cs "x")));
    [intros k _; discriminate|intros k _; discriminate|vm_compute; discriminate].
Defined.

(** X6.  The table is searched for the exact string: a first token that
    is none of [cd], [help] and [exit] (one that differs in case, or has
    one of them as a part, is none of them) goes to [tash_launch] with the
    whole vector, after the colour code has been written. *)
Theorem unknown_name_is_launched (E : os) (p : Z) (name : cstring)
        (rest : list cstring) (w : world) :
  ~ In (c_str name) builtin_str ->
  tash_execute E (Argv p (name :: rest)) w
  = tash_launch E (Argv p (name :: rest)) (add_stdout (colour "33") w).
Proof. apply dispatch_external. Qed.

Lemma unknown_name_is_launched_witness :
  ~ In (c_str (cs "CD")) builtin_str
  /\ tash_execute os_plain (Argv 0 [cs "CD"; cs "/tmp"]) (start [])
     = tash_launch os_plain (Argv 0 [cs "CD"; cs "/tmp"])
         (add_stdout (colour "33") (start [])).
Proof.
  assert (~ In (c_str (cs "CD")) builtin_str) as H
    by (vm_compute; intros [H|[H|[H|[]]]]; discriminate).
  split; [exact H|].
  apply (unknown_name_is_launched os_plain 0 (cs "CD") [cs "/tmp"] (start []) H).
Defined.

(** X7.  The builtins [cd] and [help] run in the interpreter itself:
    dispatching them returns [Continue] and neither forks, nor asks the
    allocator, nor reads input. *)
Theorem builtins_stay_in_process (E : os) (p : Z) (name : cstring)
        (rest : list cstring) (w : world) :
  c_str name = cs "cd" \/ c_str name = cs "help" ->
  exists w',
    tash_execute E (Argv p (name :: rest)) w = Returns Continue w'
    /\ w_forks w' = w_forks w
    /\ w_allocs w' = w_allocs w
    /\ w_stdin w' = w_stdin w.
Proof.
  intros Hname. rewrite (dispatch_builtin E p name rest w Hname).
  destruct (strcmp name (cs "cd") =? 0).
  - unfold cd. cbn [argv_toks]. destruct rest as [|path extra].
    + eexists. split; [reflexivity|]. now split.
    + unfold chdir, bind.
      destruct (os_chdir E _ path); eexists; (split; [reflexivity|now split]).
  - eexists. split; [reflexivity|]. now split.
Qed.

Lemma builtins_stay_in_process_witness :
  (c_str (cs "cd") = cs "cd" \/ c_str (cs "cd") = cs "help")
  /\ exists w',
      tash_execute os_plain (Argv 0 [cs "cd"; cs "/tmp"]) (start (cs "x"))
      = Returns Continue w'
      /\ w_forks w' = w_forks (start (cs "x"))
      /\ w_allocs w' = w_allocs (start (cs "x"))
      /\ w_stdin w' = w_stdin (start (cs "x")).
Proof.
  split; [left; reflexivity|].
  apply (builtins_stay_in_process os_plain 0 (cs "cd") [cs "/tmp"] (start (cs "x"))).
  left; reflexivity.
Defined.

(** X8.  [help], however many arguments it is given, writes the three
    lines of its banner, one line for each name of the table in the order
    of the table, and its closing line; it returns [Continue] and changes
    nothing but the output. *)
Theorem help_lists_the_table (E : os) (p : Z) (name : cstring)
        (rest : list cstring) (w : world) :
  c_str name = cs "help" ->
  tash_execute E (Argv p (name :: rest)) w
  = Returns Continue
      (World (w_stdin w) (w_stdout w ++ colour "33" :: help_text) (w_stderr w)
             (w_cwd w) (w_errno w) (w_strtok w) (w_allocs w) (w_forks w)).
Proof.
  intros Hname. rewrite (dispatch_builtin E p name rest w (or_intror Hname)).
  rewrite (strcmp_neq name (cs "cd")) by (rewrite Hname; discriminate).
  unfold help, bind, printf, ret, add_stdout. cbn.
  rewrite <- !app_assoc. reflexivity.
Qed.

Lemma help_lists_the_table_witness :
  c_str (cs "help") = cs "help"
  /\ tash_execute os_plain (Argv 0 [cs "help"; cs "me"]) (start [])
     = Returns Continue
         (World (w_stdin (start [])) (w_stdout (start []) ++ colour "33" :: help_text)
                (w_stderr (start [])) (w_cwd (start [])) (w_errno (start []))
                (w_strtok (start [])) (w_allocs (start [])) (w_forks (start []))).
Proof.
  split; [reflexivity|].
  apply (help_lists_the_table os_plain 0 (cs "help") [cs "me"] (start []));
    reflexivity.
Defined.

(** X9.  Of all commands only [exit] ends the process: the dispatcher
    ends it exactly when the string at [args[0]] is [exit]. *)
Theorem only_exit_ends_the_process (E : os) (args : argv) (w : world) :
  process_ended (tash_execute E args w) = true
  <-> first_token args = Some (cs "exit").
Proof.
  split.
  - intros Hend.
    destruct args as [p [|name rest]]; [discriminate|].
    destruct (List.list_eq_dec ascii_dec (c_str name) (cs "exit")) as [Heq|Hne].
    + unfold first_token. cbn [argv_toks head option_map]. now f_equal.
    + exfalso.
      assert (first_token (Argv p (name :: rest)) <> Some (cs "exit")) as Hother
        by (unfold first_token; intros [= Heq]; now apply Hne).
      pose proof (dispatch_fate E _ w Hother) as Hfate.
      destruct (tash_execute E (Argv p (name :: rest)) w); try discriminate.
      exact Hfate.
  - intros Hexit. destruct args as [p [|name rest]]; [discriminate|].
    injection Hexit as Hexit. now rewrite (dispatch_exit E p name rest w Hexit).
Qed.

(** X10.  When [fork] fails, an external command is given up: its
    [errno] is reported through [perror], nothing is executed or waited
    for, and the dispatcher returns [Continue]. *)
Theorem fork_failure_is_reported (E : os) (p : Z) (name : cstring)
        (rest : list cstring) (w : world) (e : Z) :
  ~ In (c_str name) builtin_str ->
  os_fork E (w_forks w) = Err e ->
  tash_execute E (Argv p (name :: rest)) w
  = Returns Continue
      (add_stderr (Perror "tash" e)
         (set_errno e (count_fork (add_stdout (colour "33") w)))).
Proof.
  intros Hname Hfork. rewrite (dispatch_external E p name rest w Hname).
  now apply tash_launch_fork_fails.
Qed.

Lemma fork_failure_is_reported_witness :
  ~ In (c_str (cs "ls")) builtin_str
  /\ os_fork os_no_fork (w_forks (start [])) = Err 11
  /\ tash_execute os_no_fork (Argv 0 [cs "ls"]) (start [])
     = Returns Continue
         (add_stderr (Perror "tash" 11)
            (set_errno 11 (count_fork (add_stdout (colour "33") (start []))))).
Proof.
  assert (~ In (c_str (cs "ls")) builtin_str) as H
    by (vm_compute; intros [H|[H|[H|[]]]]; discriminate).
  split; [exact H|]. split; [reflexivity|].
  apply (fork_failure_is_reported os_no_fork 0 (cs "ls") [] (start []) 11 H).
  reflexivity.
Defined.

(** X11.  The parent of an external command calls [waitpid] again
    and again, without looking at what the call returns, until the value in
    [status] says that the child has exited or was killed by a signal.  A
    call that fails stores nothing and sets [errno]: [status] then still
    holds the report of the call before, or, in the first round, what the
    stack held.  When the loop ends the dispatcher returns [Continue]; it
    has written nothing and, but for [errno], the state is that after the
    fork.  When the answers of [waitpid] run out first, the dispatcher
    does not return.  Which of the two happens, and [errno], depend on the
    values in [status] only through whether they say that the child is
    gone: the exit code and the signal of the child show nowhere. *)
Theorem parent_waits_for_the_child (E : os) (p : Z) (name : cstring)
        (rest : list cstring) (w : world) (pid : Z) :
  ~ In (c_str name) builtin_str ->
  os_fork E (w_forks w) = Ok pid -> 0 < pid ->
  tash_execute E (Argv p (name :: rest)) w
  = (if wait_ends (os_stack E) (os_wait E pid)
     then Returns Continue
            (set_errno (wait_errno (os_stack E) (os_wait E pid) (w_errno w))
               (count_fork (add_stdout (colour "33") w)))
     else Blocks
            (set_errno (wait_errno (os_stack E) (os_wait E pid) (w_errno w))
               (count_fork (add_stdout (colour "33") w))))
  /\ (forall f : wstatus -> wstatus,
        (forall s, gone (f s) = gone s) ->
        wait_ends (f (os_stack E)) (map (relabel f) (os_wait E pid))
        = wait_ends (os_stack E) (os_wait E pid)
        /\ wait_errno (f (os_stack E)) (map (relabel f) (os_wait E pid)) (w_errno w)
           = wait_errno (os_stack E) (os_wait E pid) (w_errno w)).
Proof.
  intros Hname Hfork Hpid. split.
  - rewrite (dispatch_external E p name rest w Hname).
    exact (tash_launch_parent E _ (add_stdout (colour "33") w) pid Hfork Hpid).
  - intros f Hf. now apply wait_sees_gone_only.
Qed.

Lemma parent_waits_for_the_child_witness :
  ~ In (c_str (cs "ls")) builtin_str
  /\ os_fork os_interrupted (w_forks (start [])) = Ok 42
  /\ 0 < 42
  /\ tash_execute os_interrupted (Argv 0 [cs "ls"]) (start [])
     = (if wait_ends (os_stack os_interrupted) (os_wait os_interrupted 42)
        then Returns Continue
               (set_errno
                  (wait_errno (os_stack os_interrupted) (os_wait os_interrupted 42)
                     (w_errno (start [])))
                  (count_fork (add_stdout (colour "33") (start []))))
        else Blocks
               (set_errno
                  (wait_errno (os_stack os_interrupted) (os_wait os_interrupted 42)
                     (w_errno (start [])))
                  (count_fork (add_stdout (colour "33") (start [])))))
  /\ (forall f : wstatus -> wstatus,
        (forall s, gone (f s) = gone s) ->
        wait_ends (f (os_stack os_interrupted))
          (map (relabel f) (os_wait os_interrupted 42))
        = wait_ends (os_stack os_interrupted) (os_wait os_interrupted 42)
        /\ wait_errno (f (os_stack os_interrupted))
             (map (relabel f) (os_wait os_interrupted 42)) (w_errno (start []))
           = wait_errno (os_stack os_interrupted) (os_wait os_interrupted 42)
               (w_errno (start []))).
Proof.
  assert (~ In (c_str (cs "ls")) builtin_str) as H
    by (vm_compute; intros [H|[H|[H|[]]]]; discriminate).
  split; [exact H|]. split; [reflexivity|]. split; [lia|].
  apply (parent_waits_for_the_child os_interrupted 0 (cs "ls") [] (start []) 42 H);
    [reflexivity|lia].
Defined.

(** X12.  In the forked child the program named by the first token is
    executed with the argument vector as it was typed, first token
    included, nothing added and nothing expanded. *)
Theorem child_executes_the_vector (E : os) (p : Z) (name : cstring)
        (rest : list cstring) (w : world) :
  ~ In (c_str name) builtin_str ->
  os_fork E (w_forks w) = Ok 0 ->
  os_execvp E name (name :: rest) = None ->
  tash_execute E (Argv p (name :: rest)) w
  = Execs name (name :: rest) (count_fork (add_stdout (colour "33") w)).
Proof.
  intros Hname Hfork Hexec. rewrite (dispatch_external E p name rest w Hname).
  rewrite (tash_launch_child E p name rest (add_stdout (colour "33") w) Hfork).
  now rewrite Hexec.
Qed.

Lemma child_executes_the_vector_witness :
  ~ In (c_str (cs "ls")) builtin_str
  /\ os_fork os_child_exec (w_forks (start [])) = Ok 0
  /\ os_execvp os_child_exec (cs "ls") [cs "ls"; cs "*.c"; cs "$HOME"] = None
  /\ tash_execute os_child_exec (Argv 0 [cs "ls"; cs "*.c"; cs "$HOME"]) (start [])
     = Execs (cs "ls") [cs "ls"; cs "*.c"; cs "$HOME"]
         (count_fork (add_stdout (colour "33") (start []))).
Proof.
  assert (~ In (c_str (cs "ls")) builtin_str) as H
    by (vm_compute; intros [H|[H|[H|[]]]]; discriminate).
  split; [exact H|]. split; [reflexivity|]. split; [reflexivity|].
  apply (child_executes_the_vector os_child_exec 0 (cs "ls")
           [cs "*.c"; cs "$HOME"] (start []) H); reflexivity.
Defined.

(** X13.  No command hands 0 to the loop: whenever the dispatcher
    returns, for any argument vector at all, it returns [Continue]. *)
Theorem dispatcher_returns_only_continue (E : os) (args : argv) (w : world)
        (status : Z) (w' : world) :
  tash_execute E args w = Returns status w' -> status = Continue.
Proof. apply dispatch_never_terminate. Qed.

Lemma dispatcher_returns_only_continue_witness :
  tash_execute os_plain (Argv 0 [cs "cd"]) (start [])
  = Returns 1 (add_stderr (Message usage_cd) (add_stdout (colour "33") (start [])))
  /\ 1 = Continue.
Proof.
  assert (tash_execute os_plain (Argv 0 [cs "cd"]) (start [])
          = Returns 1 (add_stderr (Message usage_cd)
                         (add_stdout (colour "33") (start [])))) as H
    by reflexivity.
  split; [exact H|].
  apply (dispatcher_returns_only_continue os_plain (Argv 0 [cs "cd"]) (start []) 1 _ H).
Defined.

(** X14.  One round of the loop.  With a line and its newline on the
    input (and memory to be had), the loop writes the prompt, takes
    exactly that line off the input, and dispatches the tokens of the line
    (of the line up to its first NUL); when the command returns, the loop
    goes into its next round, whatever the command was.  At the dispatch
    the directory, [stderr] and the count of forks are as they were before
    the round. *)
Theorem loop_round (E : os) (s rest : list ascii) (fuel : nat) (w : world) :
  heap_gives_from E (w_allocs w) ->
  w_stdin w = s ++ LF :: rest -> one_line s = true ->
  (length s <= fuel)%nat ->
  Z.of_nat (length s) + 2 * tash_RL_BUFSIZE + tash_TOK_BUFSIZE <= INT_MAX ->
  exists p w1,
    tash_loop E (S fuel) w
    = (let* _ := tash_execute E (Argv p (tokens_of (c_str s))) in
       tash_loop E fuel) w1
    /\ splits (c_str s) (tokens_of (c_str s))
    /\ w1 = World rest (w_stdout w ++ prompt_text) (w_stderr w) (w_cwd w)
              (w_errno w) []
              (2 + length s / 1024 + length (tokens_of (c_str s)) / 64
               + w_allocs w)
              (w_forks w).
Proof.
  intros Hheap Hin Hline Hfuel Hmax.
  destruct (tash_loop_round E s rest fuel w Hheap Hin Hline Hfuel Hmax)
    as (p & w1 & Hrun & Hw1).
  exists p, w1. split; [exact Hrun|]. split; [apply tokens_of_splits|exact Hw1].
Qed.

Lemma loop_round_witness :
  heap_gives_from os_plain (w_allocs (start (cs "cd /tmp" ++ LF :: cs "x")))
  /\ w_stdin (start (cs "cd /tmp" ++ LF :: cs "x")) = cs "cd /tmp" ++ LF :: cs "x"
  /\ one_line (cs "cd /tmp") = true
  /\ (length (cs "cd /tmp") <= 9)%nat
  /\ Z.of_nat (length (cs "cd /tmp")) + 2 * tash_RL_BUFSIZE + tash_TOK_BUFSIZE
     <= INT_MAX
  /\ exists p w1,
      tash_loop os_plain 10 (start (cs "cd /tmp" ++ LF :: cs "x"))
      = (let* _ := tash_execute os_plain (Argv p (tokens_of (c_str (cs "cd /tmp")))) in
         tash_loop os_plain 9) w1
      /\ splits (c_str (cs "cd /tmp")) (tokens_of (c_str (cs "cd /tmp")))
      /\ w1 = World (cs "x")
                (w_stdout (start (cs "cd /tmp" ++ LF :: cs "x")) ++ prompt_text)
                (w_stderr (start (cs "cd /tmp" ++ LF :: cs "x")))
                (w_cwd (start (cs "cd /tmp" ++ LF :: cs "x")))
                (w_errno (start (cs "cd /tmp" ++ LF :: cs "x"))) []
                (2 + length (cs "cd /tmp") / 1024
                 + length (tokens_of (c_str (cs "cd /tmp"))) / 64
                 + w_allocs (start (cs "cd /tmp" ++ LF :: cs "x")))
                (w_forks (start (cs "cd /tmp" ++ LF :: cs "x"))).
Proof.
  split; [intros k _; discriminate|].
  split; [reflexivity|]. split; [reflexivity|].
  split; [vm_compute; lia|]. split; [vm_compute; discriminate|].
  apply (loop_round os_plain (cs "cd /tmp") (cs "x") 9
           (start (cs "cd /tmp" ++ LF :: cs "x")));
    [intros k _; discriminate|reflexivity|reflexivity|vm_compute; lia
    |vm_compute; discriminate].
Defined.

(** X15.  A line of white space alone (an empty line too) is passed
    over: the loop goes into its next round with the rest of the input,
    and all the round has left behind is the prompt and the colour codes
    on the output and the two blocks it asked of the allocator; the
    directory and [stderr] are as before and nothing was forked. *)
Theorem blank_line_is_passed_over (E : os) (s rest : list ascii) (fuel : nat)
        (w : world) :
  heap_gives_from E (w_allocs w) ->
  w_stdin w = s ++ LF :: rest -> one_line s = true ->
  forallb is_delim (c_str s) = true ->
  (length s <= fuel)%nat ->
  Z.of_nat (length s) + 2 * tash_RL_BUFSIZE + tash_TOK_BUFSIZE <= INT_MAX ->
  tash_loop E (S fuel) w
  = tash_loop E fuel
      (World rest (w_stdout w ++ prompt_text ++ [colour "33"]) (w_stderr w)
             (w_cwd w) (w_errno w) [] (2 + length s / 1024 + w_allocs w)
             (w_forks w)).
Proof.
  intros Hheap Hin Hline Hblank Hfuel Hmax.
  destruct (tash_loop_round E s rest fuel w Hheap Hin Hline Hfuel Hmax)
    as (p & w1 & Hrun & Hw1).
  rewrite Hrun, Hw1, !(only_delims_no_token _ Hblank).
  erewrite bind_returns by reflexivity.
  f_equal. apply world_fields;
    cbn [w_stdin w_stdout w_stderr w_cwd w_errno w_strtok w_allocs w_forks
         add_stdout length];
    try reflexivity.
  - now rewrite <- app_assoc.
  - change (0 / 64)%nat with 0%nat. lia.
Qed.

Lemma blank_line_is_passed_over_witness :
  heap_gives_from os_plain (w_allocs (start (cs "  " ++ LF :: cs "x")))
  /\ w_stdin (start (cs "  " ++ LF :: cs "x")) = cs "  " ++ LF :: cs "x"
  /\ one_line (cs "  ") = true
  /\ forallb is_delim (c_str (cs "  ")) = true
  /\ (length (cs "  ") <= 9)%nat
  /\ Z.of_nat (length (cs "  ")) + 2 * tash_RL_BUFSIZE + tash_TOK_BUFSIZE <= INT_MAX
  /\ tash_loop os_plain 10 (start (cs "  " ++ LF :: cs "x"))
     = tash_loop os_plain 9
         (World (cs "x")
            (w_stdout (start (cs "  " ++ LF :: cs "x")) ++ prompt_text ++ [colour "33"])
            (w_stderr (start (cs "  " ++ LF :: cs "x")))
            (w_cwd (start (cs "  " ++ LF :: cs "x")))
            (w_errno (start (cs "  " ++ LF :: cs "x"))) []
            (2 + length (cs "  ") / 1024 + w_allocs (start (cs "  " ++ LF :: cs "x")))
            (w_forks (start (cs "  " ++ LF :: cs "x")))).
Proof.
  split; [intros k _; discriminate|].
  split; [reflexivity|]. split; [reflexivity|]. split; [reflexivity|].
  split; [vm_compute; lia|]. split; [vm_compute; discriminate|].
  apply (blank_line_is_passed_over os_plain (cs "  ") (cs "x") 9
           (start (cs "  " ++ LF :: cs "x")));
    [intros k _; discriminate|reflexivity|reflexivity|reflexivity|vm_compute; lia
    |vm_compute; discriminate].
Defined.
